(** * Financial-calculator: option pricing engine

    A shallow embedding of [Options/options.h] and [Options/options.cpp]:
    the Black-Scholes evaluator, the Greeks evaluator, the Monte Carlo
    evaluator, the uniform random source and the option payoff primitive.

    Conventions of the embedding.
    - A C++ [double] is idealised as a real number of [R]; the operators
      [+ - * /] are the field operations and [std::exp], [std::log],
      [std::sqrt], [std::cos] are the functions of the same name of the
      real-number library (total: [ln] and [sqrt] are [0] outside their
      domain and [x / 0] is an unspecified real, where IEEE arithmetic
      gives NaN or an infinity).  Rounding is not modelled.
    - [std::size_t] is a natural number of [N].
    - An exception is a constructor of the result type [Outcome].
    - The pseudo-random engine is not determined by the program (it is
      seeded from [std::random_device]); it is modelled by the sequence of
      64-bit words it delivers. *)

From Stdlib Require Import Reals Lra Lia ZArith NArith List String.
Import ListNotations.

Open Scope R_scope.

(** ** The complementary error function

    [std::erfc] is defined by its Maclaurin series,
    [erf x = 2/sqrt(pi) * sum_n (-1)^n x^(2n+1) / (n! (2n+1))] and
    [erfc x = 1 - erf x]. *)

Module ErrorFunction.

Definition erf_n (n : nat) : R :=
  (-1) ^ n / (INR (fact n) * INR (2 * n + 1)).

Lemma erf_n_neq_0 : forall n : nat, erf_n n <> 0.
Proof.
  intro n. unfold erf_n, Rdiv.
  apply Rmult_integral_contrapositive_currified.
  - apply pow_nonzero. lra.
  - apply Rinv_neq_0_compat.
    apply Rmult_integral_contrapositive_currified.
    + apply INR_fact_neq_0.
    + apply not_0_INR. lia.
Qed.

Lemma erf_n_ratio :
  forall n : nat,
    erf_n (S n) / erf_n n = - (INR (2 * n + 1) / (INR (S n) * INR (2 * n + 3))).
Proof.
  intro n. unfold erf_n.
  replace (2 * S n + 1)%nat with (2 * n + 3)%nat by lia.
  rewrite fact_simpl, mult_INR.
  change ((-1) ^ S n) with (-1 * (-1) ^ n).
  assert (Hp : (-1) ^ n <> 0) by (apply pow_nonzero; lra).
  assert (Hf : INR (fact n) <> 0) by apply INR_fact_neq_0.
  assert (H1 : INR (2 * n + 1) <> 0) by (apply not_0_INR; lia).
  assert (H3 : INR (2 * n + 3) <> 0) by (apply not_0_INR; lia).
  assert (Hs : INR (S n) <> 0) by (apply not_0_INR; lia).
  field. repeat split; assumption.
Qed.

Lemma erf_n_ratio_bound :
  forall n : nat, Rabs (erf_n (S n) / erf_n n) <= / INR (S n).
Proof.
  intro n. rewrite erf_n_ratio, Rabs_Ropp.
  assert (Hs : 0 < INR (S n)) by (apply lt_0_INR; lia).
  assert (H1 : 0 < INR (2 * n + 1)) by (apply lt_0_INR; lia).
  assert (H3 : INR (2 * n + 3) = INR (2 * n + 1) + 2).
  { replace (2 * n + 3)%nat with ((2 * n + 1) + 2)%nat by lia.
    rewrite plus_INR. simpl. lra. }
  rewrite Rabs_pos_eq.
  - replace (INR (2 * n + 1) / (INR (S n) * INR (2 * n + 3)))
      with (/ INR (S n) * (INR (2 * n + 1) / INR (2 * n + 3)))
      by (field; lra).
    rewrite <- (Rmult_1_r (/ INR (S n))) at 2.
    apply Rmult_le_compat_l.
    + left. apply Rinv_0_lt_compat. exact Hs.
    + apply Rmult_le_reg_r with (INR (2 * n + 3)); [ lra | ].
      unfold Rdiv. rewrite Rmult_assoc, Rinv_l; lra.
  - apply Rmult_le_pos; [ lra | ].
    left. apply Rinv_0_lt_compat. apply Rmult_lt_0_compat; lra.
Qed.

Lemma Alembert_erf : Un_cv (fun n : nat => Rabs (erf_n (S n) / erf_n n)) 0.
Proof.
  intros eps Heps.
  destruct (archimed_cor1 eps Heps) as [N [HN HNpos]].
  exists N. intros n Hn.
  unfold Rdist. rewrite Rminus_0_r, Rabs_Rabsolu.
  apply Rle_lt_trans with (/ INR (S n)); [ apply erf_n_ratio_bound | ].
  apply Rlt_trans with (/ INR N); [ | exact HN ].
  apply Rinv_lt_contravar.
  - apply Rmult_lt_0_compat; apply lt_0_INR; lia.
  - apply lt_INR. lia.
Qed.

Definition erf_in (y l : R) : Prop :=
  infinite_sum (fun i : nat => erf_n i * y ^ i) l.

Lemma exist_erf : forall y : R, { l : R | erf_in y l }.
Proof.
  intro y. exact (Alembert_C3 erf_n y erf_n_neq_0 Alembert_erf).
Defined.

Definition erf (x : R) : R :=
  2 / sqrt PI * (x * proj1_sig (exist_erf (x * x))).

Definition erfc (x : R) : R := 1 - erf x.

Lemma erf_opp : forall x : R, erf (- x) = - erf x.
Proof.
  intro x. unfold erf.
  replace (- x * - x) with (x * x) by ring.
  ring.
Qed.

Lemma erf_0 : erf 0 = 0.
Proof. unfold erf. ring. Qed.

Lemma erfc_0 : erfc 0 = 1.
Proof. unfold erfc. rewrite erf_0. ring. Qed.

Lemma erfc_opp : forall x : R, erfc (- x) = 2 - erfc x.
Proof.
  intro x. unfold erfc. rewrite erf_opp. ring.
Qed.

End ErrorFunction.

(** ** Data model ([options.h]) *)

Definition MATH_PI : R := 3.14159265358979323846.

(** A scoped enumeration can hold any value of its underlying type; the
    last constructor of each enumeration stands for the values that are
    not enumerators, which is what the [default:] branches catch. *)
Inductive Greeks : Type :=
  | Delta | Gamma | Theta | Vega | Rho | Greeks_out_of_range.

Inductive OptionType : Type :=
  | Call | Put | OptionType_out_of_range.

Definition OptionType_eqb (x y : OptionType) : bool :=
  match x, y with
  | Call, Call | Put, Put
  | OptionType_out_of_range, OptionType_out_of_range => true
  | _, _ => false
  end.

Definition Price := R.
Definition Time := R.
Definition InterestRate := R.
Definition StrategyPayoff := R.
Definition DividendYield := R.
Definition Volatility := R.

Module BlackScholesParams.
Record t : Type := make {
  interest_rate : InterestRate;
  underlying_price : Price;
  strike_price : Price;
  time : Time;
  volatility : Volatility;
  option_type : OptionType;
  paid_price : Price
}.
End BlackScholesParams.

Module GreeksParams.
Record t : Type := make {
  interest_rate : InterestRate;
  underlying_price : Price;
  strike_price : Price;
  time : Time;
  volatility : Volatility;
  option_type : OptionType;
  paid_price : Price;
  dividend_yield : DividendYield
}.
End GreeksParams.

Module MonteCarloParams.
Record t : Type := make {
  number_of_simulations : N;
  interest_rate : InterestRate;
  underlying_price : Price;
  strike_price : Price;
  time : Time;
  volatility : Volatility;
  option_type : OptionType;
  paid_price : Price
}.
End MonteCarloParams.

(** What a call does: it returns a value or throws. *)
Inductive Outcome (A : Type) : Type :=
  | Returns (value : A)
  | runtime_error (what : string)
  | invalid_argument (what : string).

Arguments Returns {A} value.
Arguments runtime_error {A} what.
Arguments invalid_argument {A} what.

(** The validation errors are the [std::runtime_error]s. *)
Definition is_validation_error {A : Type} (o : Outcome A) : bool :=
  match o with
  | runtime_error _ => true
  | _ => false
  end.

(** The outcome with its value, if any, passed through [f]. *)
Definition Outcome_map {A B : Type} (f : A -> B) (o : Outcome A) : Outcome B :=
  match o with
  | Returns v => Returns (f v)
  | runtime_error what => runtime_error what
  | invalid_argument what => invalid_argument what
  end.

(** ** Standard normal utilities *)

Definition normalCdf (x : R) : R :=
  0.5 * ErrorFunction.erfc (- x / sqrt 2.0).

Definition normalPdf (x : R) : R :=
  (1.0 / sqrt (2.0 * MATH_PI)) * exp (- 0.5 * x * x).

(** ** Black-Scholes evaluator *)

Definition calculateBlackScholes (params : BlackScholesParams.t) : Outcome Price :=
  let '(BlackScholesParams.make interest_rate underlying_price strike_price
          time volatility option_type _) := params in
  let d1 :=
    (ln (underlying_price / strike_price)
     + (interest_rate + (volatility * volatility) / 2.0) * time)
    / (volatility * sqrt time) in
  let d2 := d1 - volatility * sqrt time in
  match option_type with
  | Call =>
      Returns (underlying_price * normalCdf d1
               - strike_price * exp (- interest_rate * time) * normalCdf d2)
  | Put =>
      Returns (strike_price * exp (- interest_rate * time) * normalCdf (- d2)
               - underlying_price * normalCdf (- d1))
  | OptionType_out_of_range =>
      invalid_argument "[!] Invalid option type: must be Call or Put."
  end.

(** ** Greeks evaluator *)

Definition calculateGreeks (params : GreeksParams.t) (greek : Greeks) : Outcome Price :=
  let '(GreeksParams.make interest_rate underlying_price strike_price
          time volatility option_type _ dividend_yield) := params in
  if Rle_dec time 0 then runtime_error "[!] Time must be positive"
  else if Rle_dec volatility 0 then runtime_error "[!] Volatility must be positive"
  else
    let d1 :=
      (ln (underlying_price / strike_price)
       + (interest_rate + (volatility * volatility) / 2.0) * time)
      / (volatility * sqrt time) in
    let d2 := d1 - volatility * sqrt time in
    let discount := exp (- interest_rate * time) in
    let dividend_discount := exp (- dividend_yield * time) in
    match greek with
    | Delta =>
        Returns (if OptionType_eqb option_type Call
                 then dividend_discount * normalCdf d1
                 else dividend_discount * (normalCdf d1 - 1))
    | Gamma =>
        Returns ((dividend_discount * normalPdf d1)
                 / (underlying_price * volatility * sqrt time))
    | Theta =>
        let theta_part1 :=
          - (underlying_price * volatility * dividend_discount * normalPdf d1)
          / (2 * sqrt time) in
        let theta_part2 :=
          if OptionType_eqb option_type Call
          then - interest_rate * strike_price * discount * normalCdf d2
               + dividend_yield * underlying_price * dividend_discount * normalCdf d1
          else interest_rate * strike_price * discount * normalCdf (- d2)
               - dividend_yield * underlying_price * dividend_discount * normalCdf (- d1) in
        Returns (theta_part1 + theta_part2)
    | Vega =>
        Returns (underlying_price * dividend_discount * normalPdf d1 * sqrt time)
    | Rho =>
        Returns (if OptionType_eqb option_type Call
                 then strike_price * time * discount * normalCdf d2
                 else - strike_price * time * discount * normalCdf (- d2))
    | Greeks_out_of_range => invalid_argument "[!] Invalid Greek specified"
    end.

(** ** Uniform random source

    [std::mt19937_64] seeded with [rd()]: the engine is given by the words
    it delivers and by how many it has delivered. *)
Record mt19937_64 : Type := {
  words : nat -> Z;
  delivered : nat
}.

Definition engine_modulus : Z := 2 ^ 64.

(** [gen()] : the next word, in [0, 2^64), and the advanced engine. *)
Definition engine_call (gen : mt19937_64) : Z * mt19937_64 :=
  ((words gen (delivered gen) mod engine_modulus)%Z,
   {| words := words gen; delivered := S (delivered gen) |}).

(** [std::generate_canonical<double, 53>] on a 64-bit engine takes one
    word [k] and yields [k / 2^64]. *)
Definition generate_canonical (k : Z) : R := IZR k / IZR engine_modulus.

(** The element types of the template: [operator<] and the distribution
    selected by [std::conditional<std::is_floating_point_v<RandomType>, ...>]. *)
Class RandomType (T : Type) : Type := {
  less : T -> T -> bool;
  distribution : T -> T -> Z -> T
}.

(** [std::uniform_real_distribution<double>(a, b)] *)
Definition uniform_real_distribution (a b : R) (k : Z) : R :=
  generate_canonical k * (b - a) + a.

(** [std::uniform_int_distribution<T>(a, b)]: the standard fixes the range
    [a <= x <= b] and leaves the algorithm open; the word is reduced modulo
    the number of values of the range. *)
Definition uniform_int_distribution (a b : Z) (k : Z) : Z :=
  (a + k mod (b - a + 1))%Z.

#[export] Instance RandomType_double : RandomType R := {
  less := fun x y => if Rlt_dec x y then true else false;
  distribution := uniform_real_distribution
}.

#[export] Instance RandomType_integer : RandomType Z := {
  less := Z.ltb;
  distribution := uniform_int_distribution
}.

(** [std::min(a, b)] is [(b < a) ? b : a] and [std::max(a, b)] is
    [(a < b) ? b : a]. *)
Definition std_min {T : Type} `{RandomType T} (a b : T) : T :=
  if less b a then b else a.

Definition std_max {T : Type} `{RandomType T} (a b : T) : T :=
  if less a b then b else a.

Module RandomGenerator.
Record t (T : Type) : Type := make {
  gen : mt19937_64;
  distribution_a : T;
  distribution_b : T
}.
Arguments make {T} gen distribution_a distribution_b.
Arguments gen {T} _.
Arguments distribution_a {T} _.
Arguments distribution_b {T} _.

(** The constructor; [rd] is the engine that the entropy source selects. *)
Definition new {T : Type} `{RandomType T}
    (rd : mt19937_64) (left_limit right_limit : T) : t T :=
  make rd (std_min left_limit right_limit) (std_max left_limit right_limit).

Definition getRandomValue {T : Type} `{RandomType T} (g : t T) : T * t T :=
  let (k, gen') := engine_call (gen g) in
  (distribution (distribution_a g) (distribution_b g) k,
   make gen' (distribution_a g) (distribution_b g)).

(** The first [n] values that [g] produces. *)
Fixpoint values {T : Type} `{RandomType T} (n : nat) (g : t T) : list T :=
  match n with
  | O => []
  | S n' => let (x, g') := getRandomValue g in x :: values n' g'
  end.
End RandomGenerator.

(** ** Monte Carlo evaluator *)

(** [static_cast<std::size_t>(x)] truncates; it is defined for
    [-1 < x < 2^64], where it is the integer part below. *)
Definition size_t_of_double (x : R) : N := Z.to_N (Int_part x).

Definition double_of_size_t (n : N) : R := IZR (Z.of_N n).

(** The body of the day loop. *)
Definition day_step (params : MonteCarloParams.t) (time_step : R)
    (underlying_price : Price) (g : RandomGenerator.t R)
    : Price * RandomGenerator.t R :=
  let (u1, g1) := RandomGenerator.getRandomValue g in
  let (u2, g2) := RandomGenerator.getRandomValue g1 in
  let random_normal := sqrt (- 2.0 * ln u1) * cos (2.0 * MATH_PI * u2) in
  let drift :=
    (MonteCarloParams.interest_rate params
     - 0.5 * MonteCarloParams.volatility params ^ 2) * time_step in
  let diffusion :=
    MonteCarloParams.volatility params * sqrt time_step * random_normal in
  (underlying_price * exp (drift + diffusion), g2).

(** [for (day = 0; day < total_days; ++day)], by the days that remain. *)
Fixpoint day_loop (params : MonteCarloParams.t) (days : nat) (time_step : R)
    (underlying_price : Price) (g : RandomGenerator.t R)
    : Price * RandomGenerator.t R :=
  match days with
  | O => (underlying_price, g)
  | S days' =>
      let (underlying_price', g') := day_step params time_step underlying_price g in
      day_loop params days' time_step underlying_price' g'
  end.

Definition path_payoff (params : MonteCarloParams.t) (underlying_price : Price) : R :=
  if OptionType_eqb (MonteCarloParams.option_type params) Call
  then std_max (underlying_price - MonteCarloParams.strike_price params) 0.0
  else if OptionType_eqb (MonteCarloParams.option_type params) Put
  then std_max (MonteCarloParams.strike_price params - underlying_price) 0.0
  else 0.0.

(** [for (i = 0; i < number_of_simulations; ++i)], by the simulations that
    remain. *)
Fixpoint simulation_loop (params : MonteCarloParams.t) (simulations : nat)
    (total_days : nat) (time_step : R) (total_payoff : Price)
    (g : RandomGenerator.t R) : Price * RandomGenerator.t R :=
  match simulations with
  | O => (total_payoff, g)
  | S simulations' =>
      let (underlying_price, g') :=
        day_loop params total_days time_step
          (MonteCarloParams.underlying_price params) g in
      simulation_loop params simulations' total_days time_step
        (total_payoff + path_payoff params underlying_price) g'
  end.

Definition calculateMonteCarlo (rd : mt19937_64) (params : MonteCarloParams.t) : Price :=
  let random_generator_uniform := RandomGenerator.new rd 0.0 1.0 in
  let total_days := size_t_of_double (MonteCarloParams.time params * 365.0) in
  let time_step := MonteCarloParams.time params / double_of_size_t total_days in
  let (total_payoff, _) :=
    simulation_loop params
      (N.to_nat (MonteCarloParams.number_of_simulations params))
      (N.to_nat total_days) time_step 0.0 random_generator_uniform in
  let average_payoff :=
    total_payoff / double_of_size_t (MonteCarloParams.number_of_simulations params) in
  let discount_factor :=
    exp (- MonteCarloParams.interest_rate params * MonteCarloParams.time params) in
  average_payoff * discount_factor.

(** ** Option payoff primitive *)

Module Option.
Record t : Type := make {
  strike_ : Price;
  premium_ : Price;
  option_type_ : OptionType
}.

Definition calculatePayoff (self : t) (spotPrice : Price) : Price :=
  if OptionType_eqb (option_type_ self) Call
  then std_max (spotPrice - strike_ self) 0.0 - premium_ self
  else std_max (strike_ self - spotPrice) 0.0 - premium_ self.

Definition getStrike (self : t) : Price := strike_ self.

Definition getPremium (self : t) : Price := premium_ self.

Definition getType (self : t) : OptionType := option_type_ self.
End Option.

(** ** Futures valuation *)

Module FuturesParams.
Record t : Type := make {
  present_value : Price;
  interest_rate : InterestRate;
  time : Time
}.
End FuturesParams.

(** [std::pow(x, y)] for a positive base [x], where it is [exp(y ln x)].
    For a base that is not positive [std::pow] distinguishes integer
    exponents, zero and NaN results; these cases are not represented, and
    every property below assumes a positive base. *)
Definition std_pow (x y : R) : R := Rpower x y.

Definition calculateFutures (params : FuturesParams.t) : R :=
  FuturesParams.present_value params
  * std_pow (1 + FuturesParams.interest_rate params) (FuturesParams.time params).

(** ** Strategy payoffs *)

Module CalculateStrategy.
Definition getPutSpread (long_put short_put : Option.t) (spotPrice : Price)
    : Outcome StrategyPayoff :=
  if Rle_dec (Option.getStrike long_put) (Option.getStrike short_put)
  then runtime_error "[!] Long put strike should be higher than short put strike"
  else Returns (Option.calculatePayoff long_put spotPrice
                - Option.calculatePayoff short_put spotPrice).

Definition getCallSpread (long_call short_call : Option.t) (spotPrice : Price)
    : Outcome StrategyPayoff :=
  if Rge_dec (Option.getStrike long_call) (Option.getStrike short_call)
  then runtime_error "[!] Long call strike should be lower than short call strike"
  else Returns (Option.calculatePayoff long_call spotPrice
                - Option.calculatePayoff short_call spotPrice).

Definition getButterfly (wing1 body wing2 : Option.t) (spotPrice : Price)
    : Outcome StrategyPayoff :=
  if Rge_dec (Option.getStrike wing1) (Option.getStrike body)
  then runtime_error "[!] Strikes should be in ascending order"
  else if Rge_dec (Option.getStrike body) (Option.getStrike wing2)
  then runtime_error "[!] Strikes should be in ascending order"
  else Returns (Option.calculatePayoff wing1 spotPrice
                - 2.0 * Option.calculatePayoff body spotPrice
                + Option.calculatePayoff wing2 spotPrice).

Definition getStrangle (put call : Option.t) (spotPrice : Price)
    : Outcome StrategyPayoff :=
  if Rge_dec (Option.getStrike put) (Option.getStrike call)
  then runtime_error "[!] Put strike should be lower than Call strike"
  else Returns (Option.calculatePayoff put spotPrice
                + Option.calculatePayoff call spotPrice).

Definition getStraddle (put call : Option.t) (spotPrice : Price)
    : Outcome StrategyPayoff :=
  if Req_dec_T (Option.getStrike put) (Option.getStrike call)
  then Returns (Option.calculatePayoff put spotPrice
                + Option.calculatePayoff call spotPrice)
  else runtime_error "For Straddle, Put and Call strikes should be the same".
End CalculateStrategy.

(** ** The demo inputs of [main.cpp] *)

Definition bs_params : BlackScholesParams.t :=
  BlackScholesParams.make 0.2 100.0 105.0 0.5 0.3 Call 5.0.

Definition mtc_params : MonteCarloParams.t :=
  MonteCarloParams.make 1000000 0.2 100.0 105.0 0.5 0.3 Call 5.0.

(** The inputs of the specification's sanity check, and the same at expiry. *)
Definition greeks_params : GreeksParams.t :=
  GreeksParams.make 0.05 100 100 1 0.2 Call 0 0.

Definition greeks_params_at_expiry : GreeksParams.t :=
  GreeksParams.make 0.05 100 100 0 0.2 Call 0 0.

(** An evaluation of half a day: [time * 365 = 0.5]. *)
Definition mtc_params_half_day : MonteCarloParams.t :=
  MonteCarloParams.make 1 0.05 100 90 (1 / 730) 0.2 Call 5.

(** ** The samples of a Monte Carlo evaluation

    The loops of the evaluator once more, returning besides their result
    the uniform samples [u1], [u2] in the order in which they are drawn. *)

Module Trace.
Definition day_step (params : MonteCarloParams.t) (time_step : R)
    (underlying_price : Price) (g : RandomGenerator.t R)
    : Price * RandomGenerator.t R * list R :=
  let (u1, g1) := RandomGenerator.getRandomValue g in
  let (u2, g2) := RandomGenerator.getRandomValue g1 in
  let random_normal := sqrt (- 2.0 * ln u1) * cos (2.0 * MATH_PI * u2) in
  let drift :=
    (MonteCarloParams.interest_rate params
     - 0.5 * MonteCarloParams.volatility params ^ 2) * time_step in
  let diffusion :=
    MonteCarloParams.volatility params * sqrt time_step * random_normal in
  (underlying_price * exp (drift + diffusion), g2, [u1; u2]).

Fixpoint day_loop (params : MonteCarloParams.t) (days : nat) (time_step : R)
    (underlying_price : Price) (g : RandomGenerator.t R)
    : Price * RandomGenerator.t R * list R :=
  match days with
  | O => (underlying_price, g, [])
  | S days' =>
      let '(underlying_price', g', us) :=
        day_step params time_step underlying_price g in
      let '(underlying_price'', g'', us') :=
        day_loop params days' time_step underlying_price' g' in
      (underlying_price'', g'', us ++ us')
  end.

Fixpoint simulation_loop (params : MonteCarloParams.t) (simulations : nat)
    (total_days : nat) (time_step : R) (total_payoff : Price)
    (g : RandomGenerator.t R) : Price * RandomGenerator.t R * list R :=
  match simulations with
  | O => (total_payoff, g, [])
  | S simulations' =>
      let '(underlying_price, g', us) :=
        day_loop params total_days time_step
          (MonteCarloParams.underlying_price params) g in
      let '(total_payoff', g'', us') :=
        simulation_loop params simulations' total_days time_step
          (total_payoff + path_payoff params underlying_price) g' in
      (total_payoff', g'', us ++ us')
  end.

(** The price and the samples drawn by [calculateMonteCarlo rd params]. *)
Definition calculateMonteCarlo (rd : mt19937_64) (params : MonteCarloParams.t)
    : Price * list R :=
  let random_generator_uniform := RandomGenerator.new rd 0.0 1.0 in
  let total_days := size_t_of_double (MonteCarloParams.time params * 365.0) in
  let time_step := MonteCarloParams.time params / double_of_size_t total_days in
  let '(total_payoff, _, us) :=
    simulation_loop params
      (N.to_nat (MonteCarloParams.number_of_simulations params))
      (N.to_nat total_days) time_step 0.0 random_generator_uniform in
  let average_payoff :=
    total_payoff / double_of_size_t (MonteCarloParams.number_of_simulations params) in
  let discount_factor :=
    exp (- MonteCarloParams.interest_rate params * MonteCarloParams.time params) in
  (average_payoff * discount_factor, us).

Definition samples (rd : mt19937_64) (params : MonteCarloParams.t) : list R :=
  snd (calculateMonteCarlo rd params).
End Trace.

(** An engine that delivers the words [0], [1], [2], ... *)
Definition counting_engine : mt19937_64 := {| words := Z.of_nat; delivered := 0 |}.

(** An engine that delivers the odd words [1], [3], [5], ... *)
Definition odd_engine : mt19937_64 :=
  {| words := fun n => (2 * Z.of_nat n + 1)%Z; delivered := 0 |}.

(** ** The specification's formulas

    Written after the specification, with [s], [k], [t], [r], [sigma], [q]
    for the underlying price, the strike, the time to expiry, the interest
    rate, the volatility and the dividend yield. *)

Module Spec.
Definition Phi (x : R) : R := 0.5 * ErrorFunction.erfc (- x / sqrt 2).

Definition d1 (s k t r sigma : R) : R :=
  (ln (s / k) + (r + sigma ^ 2 / 2) * t) / (sigma * sqrt t).

Definition d2 (s k t r sigma : R) : R := d1 s k t r sigma - sigma * sqrt t.

Definition BlackScholesCall (s k t r sigma : R) : R :=
  s * Phi (d1 s k t r sigma) - k * exp (- (r * t)) * Phi (d2 s k t r sigma).

Definition BlackScholesPut (s k t r sigma : R) : R :=
  k * exp (- (r * t)) * Phi (- d2 s k t r sigma) - s * Phi (- d1 s k t r sigma).

Definition discount (r t : R) : R := exp (- (r * t)).

Definition dividend_discount (q t : R) : R := exp (- (q * t)).

(** The standard normal density [(1 / sqrt (2 pi)) exp (- x^2 / 2)], with the
    program's constant [MATH_PI] for [pi]. *)
Definition phi (x : R) : R := 1 / sqrt (2 * MATH_PI) * exp (- (x ^ 2 / 2)).

Section Greeks.
Variables s k t r sigma q : R.

Definition delta_call : R := dividend_discount q t * Phi (d1 s k t r sigma).

Definition delta_put : R := dividend_discount q t * (Phi (d1 s k t r sigma) - 1).

Definition gamma : R :=
  dividend_discount q t * phi (d1 s k t r sigma) / (s * sigma * sqrt t).

Definition theta_part1 : R :=
  - (s * sigma * dividend_discount q t * phi (d1 s k t r sigma)) / (2 * sqrt t).

Definition theta_call : R :=
  theta_part1
  + (- r * k * discount r t * Phi (d2 s k t r sigma)
     + q * s * dividend_discount q t * Phi (d1 s k t r sigma)).

Definition theta_put : R :=
  theta_part1
  + (r * k * discount r t * Phi (- d2 s k t r sigma)
     - q * s * dividend_discount q t * Phi (- d1 s k t r sigma)).

Definition vega : R := s * dividend_discount q t * phi (d1 s k t r sigma) * sqrt t.

Definition rho_call : R := k * t * discount r t * Phi (d2 s k t r sigma).

Definition rho_put : R := - k * t * discount r t * Phi (- d2 s k t r sigma).
End Greeks.

(** Finite sums and products, [sum_n f n = f 0 + ... + f (n - 1)]. *)
Fixpoint sum_n (f : nat -> R) (n : nat) : R :=
  match n with
  | O => 0
  | S n' => sum_n f n' + f n'
  end.

Fixpoint prod_n (f : nat -> R) (n : nat) : R :=
  match n with
  | O => 1
  | S n' => prod_n f n' * f n'
  end.

Section MonteCarlo.
Variable rd : mt19937_64.
Variable params : MonteCarloParams.t.

(** The [m]-th sample of the uniform random source with bounds 0 and 1. *)
Definition uniform (m : nat) : R :=
  nth m (RandomGenerator.values (S m) (RandomGenerator.new rd 0 1)) 0.

(** The [j]-th standard-normal draw, by the Box-Muller transform. *)
Definition normal (j : nat) : R :=
  sqrt (- 2 * ln (uniform (2 * j))) * cos (2 * MATH_PI * uniform (2 * j + 1)).

Definition total_days : nat :=
  Z.to_nat (Int_part (MonteCarloParams.time params * 365)).

Definition time_step : R := MonteCarloParams.time params / INR total_days.

Definition drift : R :=
  (MonteCarloParams.interest_rate params
   - (MonteCarloParams.volatility params) ^ 2 / 2) * time_step.

Definition diffusion (z : R) : R :=
  MonteCarloParams.volatility params * sqrt time_step * z.

(** The price at the end of path [i]. *)
Definition terminal_price (i : nat) : R :=
  MonteCarloParams.underlying_price params
  * prod_n (fun day => exp (drift + diffusion (normal (i * total_days + day))))
      total_days.

Definition payoff (price : R) : R :=
  match MonteCarloParams.option_type params with
  | Call => Rmax (price - MonteCarloParams.strike_price params) 0
  | _ => Rmax (MonteCarloParams.strike_price params - price) 0
  end.

Definition total_payoff : R :=
  sum_n (fun i => payoff (terminal_price i))
    (N.to_nat (MonteCarloParams.number_of_simulations params)).

Definition MonteCarlo : R :=
  total_payoff / INR (N.to_nat (MonteCarloParams.number_of_simulations params))
  * exp (- (MonteCarloParams.interest_rate params * MonteCarloParams.time params)).
End MonteCarlo.
End Spec.

(** ** Auxiliary definitions *)

(** The value that [g] produces from the [m]-th word of its engine, and [g]
    after [n] more draws. *)
Definition value_at {T : Type} `{RandomType T} (g : RandomGenerator.t T) (m : nat) : T :=
  distribution (RandomGenerator.distribution_a g) (RandomGenerator.distribution_b g)
    (words (RandomGenerator.gen g) m mod engine_modulus)%Z.

Definition advance {T : Type} (n : nat) (g : RandomGenerator.t T) : RandomGenerator.t T :=
  RandomGenerator.make
    {| words := words (RandomGenerator.gen g);
       delivered := delivered (RandomGenerator.gen g) + n |}
    (RandomGenerator.distribution_a g) (RandomGenerator.distribution_b g).

(** The factor by which day [day_step] multiplies the price when the engine
    of [g] has delivered [m] words. *)
Definition growth_at (params : MonteCarloParams.t) (time_step : R)
    (g : RandomGenerator.t R) (m : nat) : R :=
  exp ((MonteCarloParams.interest_rate params
        - 0.5 * MonteCarloParams.volatility params ^ 2) * time_step
       + MonteCarloParams.volatility params * sqrt time_step
         * (sqrt (- 2.0 * ln (value_at g m))
            * cos (2.0 * MATH_PI * value_at g (m + 1)))).

(** Two parameter structs that differ at most in [paid_price]. *)
Definition BlackScholesParams_same_but_paid_price (p p' : BlackScholesParams.t) : Prop :=
  BlackScholesParams.interest_rate p = BlackScholesParams.interest_rate p'
  /\ BlackScholesParams.underlying_price p = BlackScholesParams.underlying_price p'
  /\ BlackScholesParams.strike_price p = BlackScholesParams.strike_price p'
  /\ BlackScholesParams.time p = BlackScholesParams.time p'
  /\ BlackScholesParams.volatility p = BlackScholesParams.volatility p'
  /\ BlackScholesParams.option_type p = BlackScholesParams.option_type p'.

Definition GreeksParams_same_but_paid_price (p p' : GreeksParams.t) : Prop :=
  GreeksParams.interest_rate p = GreeksParams.interest_rate p'
  /\ GreeksParams.underlying_price p = GreeksParams.underlying_price p'
  /\ GreeksParams.strike_price p = GreeksParams.strike_price p'
  /\ GreeksParams.time p = GreeksParams.time p'
  /\ GreeksParams.volatility p = GreeksParams.volatility p'
  /\ GreeksParams.option_type p = GreeksParams.option_type p'
  /\ GreeksParams.dividend_yield p = GreeksParams.dividend_yield p'.

Definition MonteCarloParams_same_but_paid_price (p p' : MonteCarloParams.t) : Prop :=
  MonteCarloParams.number_of_simulations p = MonteCarloParams.number_of_simulations p'
  /\ MonteCarloParams.interest_rate p = MonteCarloParams.interest_rate p'
  /\ MonteCarloParams.underlying_price p = MonteCarloParams.underlying_price p'
  /\ MonteCarloParams.strike_price p = MonteCarloParams.strike_price p'
  /\ MonteCarloParams.time p = MonteCarloParams.time p'
  /\ MonteCarloParams.volatility p = MonteCarloParams.volatility p'
  /\ MonteCarloParams.option_type p = MonteCarloParams.option_type p'.

(** * Properties *)

(** [ring] on an equation whose type is written with an alias of [R]. *)
Ltac real_ring := unfold Price in *; ring.

(** ** Minimum, maximum and the normal utilities *)

Lemma less_double_spec :
  forall x y : R, less x y = true <-> x < y.
Proof.
  intros x y. simpl. destruct (Rlt_dec x y) as [Hlt | Hge].
  - split; [ intros _; exact Hlt | reflexivity ].
  - split; [ discriminate | intro H; contradiction ].
Qed.

Lemma std_max_Rmax : forall a b : R, std_max a b = Rmax a b.
Proof.
  intros a b. unfold std_max, Rmax. simpl.
  destruct (Rlt_dec a b) as [Hlt | Hge]; destruct (Rle_dec a b) as [Hle | Hgt];
    try reflexivity; lra.
Qed.

Lemma std_min_Rmin : forall a b : R, std_min a b = Rmin a b.
Proof.
  intros a b. unfold std_min, Rmin. simpl.
  destruct (Rlt_dec b a) as [Hlt | Hge]; destruct (Rle_dec a b) as [Hle | Hgt];
    try reflexivity; lra.
Qed.

Lemma std_max_Zmax : forall a b : Z, std_max a b = Z.max a b.
Proof.
  intros a b. unfold std_max. simpl.
  destruct (Z.ltb_spec a b); lia.
Qed.

Lemma std_min_Zmin : forall a b : Z, std_min a b = Z.min a b.
Proof.
  intros a b. unfold std_min. simpl.
  destruct (Z.ltb_spec b a); lia.
Qed.

Lemma normalCdf_Phi : forall x : R, normalCdf x = Spec.Phi x.
Proof.
  intro x. unfold normalCdf, Spec.Phi.
  replace 2.0 with 2 by lra. reflexivity.
Qed.

Lemma Phi_reflect : forall x : R, Spec.Phi (- x) = 1 - Spec.Phi x.
Proof.
  intro x. unfold Spec.Phi.
  replace (- - x / sqrt 2) with (- (- x / sqrt 2)) by (unfold Rdiv; ring).
  rewrite ErrorFunction.erfc_opp. lra.
Qed.

Lemma Phi_0 : Spec.Phi 0 = 0.5.
Proof.
  unfold Spec.Phi.
  replace (- 0 / sqrt 2) with 0 by (unfold Rdiv; ring).
  rewrite ErrorFunction.erfc_0. lra.
Qed.

Lemma code_d1_spec :
  forall s k t r sigma : R,
    (ln (s / k) + (r + (sigma * sigma) / 2.0) * t) / (sigma * sqrt t)
    = Spec.d1 s k t r sigma.
Proof.
  intros s k t r sigma. unfold Spec.d1.
  replace (sigma * sigma / 2.0) with (sigma ^ 2 / 2) by (simpl; lra).
  reflexivity.
Qed.

Lemma exp_opp_mult : forall r t : R, exp (- r * t) = exp (- (r * t)).
Proof.
  intros r t. f_equal. ring.
Qed.

(** ** Black-Scholes evaluator *)

Lemma calculateBlackScholes_Call :
  forall (r s k t sigma paid : R),
    calculateBlackScholes (BlackScholesParams.make r s k t sigma Call paid)
    = Returns (Spec.BlackScholesCall s k t r sigma).
Proof.
  intros r s k t sigma paid. unfold calculateBlackScholes, Spec.BlackScholesCall.
  rewrite code_d1_spec, exp_opp_mult, !normalCdf_Phi.
  reflexivity.
Qed.

Lemma calculateBlackScholes_Put :
  forall (r s k t sigma paid : R),
    calculateBlackScholes (BlackScholesParams.make r s k t sigma Put paid)
    = Returns (Spec.BlackScholesPut s k t r sigma).
Proof.
  intros r s k t sigma paid. unfold calculateBlackScholes, Spec.BlackScholesPut.
  rewrite code_d1_spec, exp_opp_mult, !normalCdf_Phi.
  reflexivity.
Qed.

(** C1: for a Call the evaluator returns [S Phi(d1) - K e^(-rT) Phi(d2)] and
    for a Put [K e^(-rT) Phi(-d2) - S Phi(-d1)], where
    [d1 = (ln(S/K) + (r + sigma^2/2) T) / (sigma sqrt T)],
    [d2 = d1 - sigma sqrt T] and [Phi x = 0.5 erfc(-x / sqrt 2)]. *)
Theorem calculateBlackScholes_formula :
  forall (r s k t sigma paid : R),
    let d1 := (ln (s / k) + (r + sigma ^ 2 / 2) * t) / (sigma * sqrt t) in
    let d2 := d1 - sigma * sqrt t in
    let Phi := fun x : R => 0.5 * ErrorFunction.erfc (- x / sqrt 2) in
    calculateBlackScholes (BlackScholesParams.make r s k t sigma Call paid)
    = Returns (s * Phi d1 - k * exp (- (r * t)) * Phi d2)
    /\ calculateBlackScholes (BlackScholesParams.make r s k t sigma Put paid)
       = Returns (k * exp (- (r * t)) * Phi (- d2) - s * Phi (- d1)).
Proof.
  intros r s k t sigma paid d1 d2 Phi.
  rewrite calculateBlackScholes_Call, calculateBlackScholes_Put.
  split; reflexivity.
Qed.

Lemma put_call_parity_formula :
  forall s k t r sigma : R,
    Spec.BlackScholesCall s k t r sigma - Spec.BlackScholesPut s k t r sigma
    = s - k * exp (- (r * t)).
Proof.
  intros s k t r sigma. unfold Spec.BlackScholesCall, Spec.BlackScholesPut.
  rewrite !Phi_reflect. ring.
Qed.

(** C2: put-call parity.  For positive [S], [K], [T], [sigma] the Call price
    minus the Put price for otherwise identical inputs is exactly
    [S - K e^(-rT)] over the reals. *)
Theorem put_call_parity :
  forall (r s k t sigma paid : R),
    0 < s -> 0 < k -> 0 < t -> 0 < sigma ->
    exists call put : Price,
      calculateBlackScholes (BlackScholesParams.make r s k t sigma Call paid)
      = Returns call
      /\ calculateBlackScholes (BlackScholesParams.make r s k t sigma Put paid)
         = Returns put
      /\ call - put = s - k * exp (- (r * t)).
Proof.
  intros r s k t sigma paid _ _ _ _.
  exists (Spec.BlackScholesCall s k t r sigma), (Spec.BlackScholesPut s k t r sigma).
  split; [ apply calculateBlackScholes_Call | ].
  split; [ apply calculateBlackScholes_Put | ].
  apply put_call_parity_formula.
Qed.

(** The parity at the inputs of [main.cpp]. *)
Lemma put_call_parity_witness :
  exists call put : Price,
    calculateBlackScholes bs_params = Returns call
    /\ calculateBlackScholes
         (BlackScholesParams.make 0.2 100.0 105.0 0.5 0.3 Put 5.0) = Returns put
    /\ call - put = 100.0 - 105.0 * exp (- (0.2 * 0.5)).
Proof.
  apply (put_call_parity 0.2 100.0 105.0 0.5 0.3 5.0); lra.
Defined.

(** ** Greeks evaluator *)

Lemma calculateGreeks_checked :
  forall (r s k t sigma paid q : R) (ty : OptionType) (greek : Greeks),
    0 < t -> 0 < sigma ->
    calculateGreeks (GreeksParams.make r s k t sigma ty paid q) greek
    = let d1 := Spec.d1 s k t r sigma in
      let d2 := Spec.d2 s k t r sigma in
      let discount := Spec.discount r t in
      let dividend_discount := Spec.dividend_discount q t in
      match greek with
      | Delta =>
          Returns (if OptionType_eqb ty Call
                   then dividend_discount * Spec.Phi d1
                   else dividend_discount * (Spec.Phi d1 - 1))
      | Gamma =>
          Returns ((dividend_discount * normalPdf d1) / (s * sigma * sqrt t))
      | Theta =>
          Returns
            (- (s * sigma * dividend_discount * normalPdf d1) / (2 * sqrt t)
             + (if OptionType_eqb ty Call
                then - r * k * discount * Spec.Phi d2
                     + q * s * dividend_discount * Spec.Phi d1
                else r * k * discount * Spec.Phi (- d2)
                     - q * s * dividend_discount * Spec.Phi (- d1)))
      | Vega => Returns (s * dividend_discount * normalPdf d1 * sqrt t)
      | Rho =>
          Returns (if OptionType_eqb ty Call
                   then k * t * discount * Spec.Phi d2
                   else - k * t * discount * Spec.Phi (- d2))
      | Greeks_out_of_range => invalid_argument "[!] Invalid Greek specified"
      end.
Proof.
  intros r s k t sigma paid q ty greek Ht Hsigma.
  unfold calculateGreeks.
  destruct (Rle_dec t 0) as [Hle | _]; [ lra | ].
  destruct (Rle_dec sigma 0) as [Hle | _]; [ lra | ].
  rewrite code_d1_spec, !exp_opp_mult, !normalCdf_Phi.
  reflexivity.
Qed.

(** C3: the evaluator raises a validation error exactly when [time <= 0] or
    [volatility <= 0]; for positive time and volatility and one of the five
    Greeks it returns a value. *)
Theorem calculateGreeks_validation :
  forall (params : GreeksParams.t) (greek : Greeks),
    (is_validation_error (calculateGreeks params greek) = true
     <-> (GreeksParams.time params <= 0 \/ GreeksParams.volatility params <= 0))
    /\ (0 < GreeksParams.time params -> 0 < GreeksParams.volatility params ->
        greek <> Greeks_out_of_range ->
        exists value : Price, calculateGreeks params greek = Returns value).
Proof.
  intros [r s k t sigma ty paid q] greek.
  cbn [GreeksParams.time GreeksParams.volatility]. split.
  - unfold calculateGreeks.
    destruct (Rle_dec t 0) as [Ht | Ht].
    + simpl. split; [ intros _; left; exact Ht | reflexivity ].
    + destruct (Rle_dec sigma 0) as [Hs | Hs].
      * simpl. split; [ intros _; right; exact Hs | reflexivity ].
      * split.
        -- destruct greek; simpl; discriminate.
        -- intros [H | H]; contradiction.
  - intros Ht Hs Hgreek.
    rewrite calculateGreeks_checked by assumption.
    destruct greek; simpl; try (eexists; reflexivity).
    contradiction Hgreek. reflexivity.
Qed.

(** At expiry every Greek is refused; a year before it Delta has a value. *)
Lemma calculateGreeks_validation_witness :
  is_validation_error (calculateGreeks greeks_params_at_expiry Delta) = true
  /\ exists value : Price, calculateGreeks greeks_params Delta = Returns value.
Proof.
  split.
  - apply (proj1 (calculateGreeks_validation greeks_params_at_expiry Delta)).
    left. simpl. lra.
  - apply (proj2 (calculateGreeks_validation greeks_params Delta)).
    + simpl. lra.
    + simpl. lra.
    + discriminate.
Defined.

Lemma normalPdf_phi : forall x : R, normalPdf x = Spec.phi x.
Proof.
  intro x. unfold normalPdf, Spec.phi.
  replace 1.0 with 1 by lra. replace 2.0 with 2 by lra.
  f_equal. f_equal. simpl. lra.
Qed.

(** C4: for positive time and volatility the evaluator returns the
    sensitivities of the specification, built from [d1], [d2],
    [discount = e^(-rT)], [dividend_discount = e^(-qT)], the distribution
    function [Phi] and the density [phi]; Gamma and Vega are the same for
    Call and Put. *)
Theorem calculateGreeks_formulas :
  forall (r s k t sigma paid q : R),
    0 < t -> 0 < sigma ->
    let call := GreeksParams.make r s k t sigma Call paid q in
    let put := GreeksParams.make r s k t sigma Put paid q in
    calculateGreeks call Delta = Returns (Spec.delta_call s k t r sigma q)
    /\ calculateGreeks put Delta = Returns (Spec.delta_put s k t r sigma q)
    /\ calculateGreeks call Gamma = Returns (Spec.gamma s k t r sigma q)
    /\ calculateGreeks put Gamma = Returns (Spec.gamma s k t r sigma q)
    /\ calculateGreeks call Theta = Returns (Spec.theta_call s k t r sigma q)
    /\ calculateGreeks put Theta = Returns (Spec.theta_put s k t r sigma q)
    /\ calculateGreeks call Vega = Returns (Spec.vega s k t r sigma q)
    /\ calculateGreeks put Vega = Returns (Spec.vega s k t r sigma q)
    /\ calculateGreeks call Rho = Returns (Spec.rho_call s k t r sigma)
    /\ calculateGreeks put Rho = Returns (Spec.rho_put s k t r sigma).
Proof.
  intros r s k t sigma paid q Ht Hsigma call put. unfold call, put.
  rewrite !calculateGreeks_checked by assumption.
  cbv zeta. rewrite !normalPdf_phi.
  repeat split; reflexivity.
Qed.

(** The formulas at the inputs of the specification's sanity check. *)
Lemma calculateGreeks_formulas_witness :
  calculateGreeks greeks_params Delta
  = Returns (Spec.delta_call 100 100 1 0.05 0.2 0)
  /\ calculateGreeks greeks_params Vega
     = Returns (Spec.vega 100 100 1 0.05 0.2 0).
Proof.
  destruct (calculateGreeks_formulas 0.05 100 100 1 0.2 0 0) as
    (HDelta & _ & _ & _ & _ & _ & HVega & _); [ lra | lra | ].
  split; [ exact HDelta | exact HVega ].
Defined.

(** ** Option payoff primitive *)

(** C7: the payoff is [max(spot - strike, 0) - premium] for a Call and
    [max(strike - spot, 0) - premium] for a Put, a total function; the two
    examples of the specification give 15, and at the strike the payoff is
    [- premium] for both types. *)
Theorem calculatePayoff_formula :
  forall strike premium spot : Price,
    Option.calculatePayoff (Option.make strike premium Call) spot
    = Rmax (spot - strike) 0 - premium
    /\ Option.calculatePayoff (Option.make strike premium Put) spot
       = Rmax (strike - spot) 0 - premium
    /\ Option.calculatePayoff (Option.make 100 5 Call) 120 = 15
    /\ Option.calculatePayoff (Option.make 100 5 Put) 80 = 15
    /\ Option.calculatePayoff (Option.make strike premium Call) strike = - premium
    /\ Option.calculatePayoff (Option.make strike premium Put) strike = - premium.
Proof.
  intros strike premium spot.
  unfold Option.calculatePayoff; cbn [Option.option_type_ Option.strike_
    Option.premium_ OptionType_eqb].
  rewrite !std_max_Rmax. replace 0.0 with 0 by lra.
  repeat split.
  - rewrite Rmax_left by lra. lra.
  - rewrite Rmax_left by lra. lra.
  - rewrite Rmax_left by lra. lra.
  - rewrite Rmax_left by lra. lra.
Qed.

(** ** Uniform random source *)

Lemma engine_call_range :
  forall gen : mt19937_64, (0 <= fst (engine_call gen) < engine_modulus)%Z.
Proof.
  intro gen. unfold engine_call. simpl.
  apply Z.mod_pos_bound. reflexivity.
Qed.

Lemma generate_canonical_range :
  forall k : Z, (0 <= k < engine_modulus)%Z -> 0 <= generate_canonical k < 1.
Proof.
  intros k [Hlo Hhi]. unfold generate_canonical.
  assert (Hm : 0 < IZR engine_modulus) by (apply IZR_lt; reflexivity).
  apply IZR_le in Hlo. apply IZR_lt in Hhi.
  split.
  - apply Rmult_le_pos; [ exact Hlo | left; apply Rinv_0_lt_compat; exact Hm ].
  - apply Rmult_lt_reg_r with (IZR engine_modulus); [ exact Hm | ].
    unfold Rdiv. rewrite Rmult_assoc, Rinv_l by lra. lra.
Qed.

Lemma uniform_real_distribution_range :
  forall (a b : R) (k : Z),
    (0 <= k < engine_modulus)%Z -> a <= b ->
    a <= uniform_real_distribution a b k <= b
    /\ (a < b -> uniform_real_distribution a b k < b).
Proof.
  intros a b k Hk Hab. unfold uniform_real_distribution.
  destruct (generate_canonical_range k Hk) as [Hlo Hhi].
  repeat split; intros; nra.
Qed.

Lemma uniform_int_distribution_range :
  forall a b k : Z, (a <= b)%Z -> (a <= uniform_int_distribution a b k <= b)%Z.
Proof.
  intros a b k Hab. unfold uniform_int_distribution.
  assert (H := Z.mod_pos_bound k (b - a + 1)). lia.
Qed.

Lemma getRandomValue_eq :
  forall (T : Type) (RT : RandomType T) (g : RandomGenerator.t T),
    RandomGenerator.getRandomValue g
    = (value_at g (delivered (RandomGenerator.gen g)), advance 1 g).
Proof.
  intros T RT g. unfold RandomGenerator.getRandomValue, engine_call, value_at, advance.
  rewrite Nat.add_1_r. reflexivity.
Qed.

Lemma value_at_advance :
  forall (T : Type) (RT : RandomType T) (n : nat) (g : RandomGenerator.t T) (m : nat),
    value_at (advance n g) m = value_at g m.
Proof. intros T RT n g m. reflexivity. Qed.

Lemma advance_advance :
  forall (T : Type) (n m : nat) (g : RandomGenerator.t T),
    advance m (advance n g) = advance (n + m) g.
Proof.
  intros T n m g. unfold advance. simpl. rewrite Nat.add_assoc. reflexivity.
Qed.

Lemma values_nth :
  forall (T : Type) (RT : RandomType T) (n : nat) (g : RandomGenerator.t T)
         (m : nat) (d : T),
    (m < n)%nat ->
    nth m (RandomGenerator.values n g) d
    = value_at g (delivered (RandomGenerator.gen g) + m).
Proof.
  intros T RT n. induction n as [| n IH]; intros g m d Hm.
  - lia.
  - cbn [RandomGenerator.values]. rewrite getRandomValue_eq.
    destruct m as [| m].
    + simpl. rewrite Nat.add_0_r. reflexivity.
    + cbn [nth]. rewrite IH by lia. rewrite value_at_advance.
      f_equal. simpl. lia.
Qed.

Lemma values_In :
  forall (T : Type) (RT : RandomType T) (n : nat) (g : RandomGenerator.t T) (x : T),
    In x (RandomGenerator.values n g) -> exists m : nat, x = value_at g m.
Proof.
  intros T RT n. induction n as [| n IH]; intros g x Hx.
  - contradiction.
  - cbn [RandomGenerator.values] in Hx. rewrite getRandomValue_eq in Hx.
    destruct Hx as [Hx | Hx].
    + eexists. symmetry. exact Hx.
    + destruct (IH _ _ Hx) as [m Hm]. exists m.
      rewrite Hm. apply value_at_advance.
Qed.

Lemma value_at_double_range :
  forall (rd : mt19937_64) (a b : R) (m : nat),
    Rmin a b <= value_at (RandomGenerator.new rd a b) m <= Rmax a b
    /\ (a <> b -> value_at (RandomGenerator.new rd a b) m < Rmax a b).
Proof.
  intros rd a b m. unfold value_at, RandomGenerator.new.
  cbn [RandomGenerator.distribution_a RandomGenerator.distribution_b
       RandomGenerator.gen distribution RandomType_double].
  rewrite std_min_Rmin, std_max_Rmax.
  assert (Hk := Z.mod_pos_bound (words rd m) engine_modulus eq_refl).
  assert (Hab : Rmin a b <= Rmax a b).
  { apply Rle_trans with a; [ apply Rmin_l | apply Rmax_l ]. }
  destruct (uniform_real_distribution_range _ _ _ Hk Hab) as [Hin Hlt].
  split; [ exact Hin | ].
  intro Hne. apply Hlt.
  unfold Rmin, Rmax. destruct (Rle_dec a b); lra.
Qed.

Lemma value_at_integer_range :
  forall (rd : mt19937_64) (a b : Z) (m : nat),
    (Z.min a b <= value_at (RandomGenerator.new rd a b) m <= Z.max a b)%Z.
Proof.
  intros rd a b m. unfold value_at, RandomGenerator.new.
  cbn [RandomGenerator.distribution_a RandomGenerator.distribution_b
       RandomGenerator.gen distribution RandomType_integer].
  rewrite std_min_Zmin, std_max_Zmax.
  apply uniform_int_distribution_range. lia.
Qed.

(** C8: the constructor takes the minimum and the maximum of its two
    arguments, so that the two orders of the bounds configure the same
    distribution; every value produced lies between the smaller and the
    larger bound, for [double] below the larger one when the bounds differ. *)
Theorem RandomGenerator_order_independent :
  (forall (rd : mt19937_64) (a b : R),
      RandomGenerator.new rd a b = RandomGenerator.new rd b a
      /\ RandomGenerator.distribution_a (RandomGenerator.new rd a b) = Rmin a b
      /\ RandomGenerator.distribution_b (RandomGenerator.new rd a b) = Rmax a b)
  /\ (forall (rd : mt19937_64) (a b : Z),
         RandomGenerator.new rd a b = RandomGenerator.new rd b a
         /\ RandomGenerator.distribution_a (RandomGenerator.new rd a b) = Z.min a b
         /\ RandomGenerator.distribution_b (RandomGenerator.new rd a b) = Z.max a b)
  /\ (forall (rd : mt19937_64) (a b : R) (n : nat) (x : R),
         In x (RandomGenerator.values n (RandomGenerator.new rd a b)) ->
         Rmin a b <= x <= Rmax a b /\ (a <> b -> x < Rmax a b))
  /\ (forall (rd : mt19937_64) (a b : Z) (n : nat) (x : Z),
         In x (RandomGenerator.values n (RandomGenerator.new rd a b)) ->
         (Z.min a b <= x <= Z.max a b)%Z).
Proof.
  split; [ | split; [ | split ] ].
  - intros rd a b. unfold RandomGenerator.new.
    cbn [RandomGenerator.distribution_a RandomGenerator.distribution_b].
    rewrite !std_min_Rmin, !std_max_Rmax, (Rmin_comm b a), (Rmax_comm b a).
    repeat split.
  - intros rd a b. unfold RandomGenerator.new.
    cbn [RandomGenerator.distribution_a RandomGenerator.distribution_b].
    rewrite !std_min_Zmin, !std_max_Zmax, (Z.min_comm b a), (Z.max_comm b a).
    repeat split.
  - intros rd a b n x Hx.
    destruct (values_In _ _ _ _ _ Hx) as [m ->].
    apply value_at_double_range.
  - intros rd a b n x Hx.
    destruct (values_In _ _ _ _ _ Hx) as [m ->].
    apply value_at_integer_range.
Qed.

(** The first value of a source built with the bounds in the order (1, 0). *)
Lemma RandomGenerator_order_independent_witness :
  Rmin 1 0 <= 0 <= Rmax 1 0 /\ (1 <> 0 -> 0 < Rmax 1 0).
Proof.
  apply (proj1 (proj2 (proj2 RandomGenerator_order_independent))
           counting_engine 1 0 1%nat 0).
  cbn [RandomGenerator.values]. rewrite getRandomValue_eq.
  left. unfold value_at, RandomGenerator.new.
  cbn [RandomGenerator.distribution_a RandomGenerator.distribution_b
       RandomGenerator.gen distribution RandomType_double counting_engine words
       delivered Z.of_nat].
  rewrite std_min_Rmin, std_max_Rmax, Rmin_right, Rmax_left by lra.
  unfold uniform_real_distribution, generate_canonical.
  rewrite Z.mod_0_l by discriminate. unfold Rdiv. ring.
Defined.

(** ** Monte Carlo evaluator *)

Lemma sum_n_ext :
  forall (f f' : nat -> R) (n : nat),
    (forall i : nat, (i < n)%nat -> f i = f' i) -> Spec.sum_n f n = Spec.sum_n f' n.
Proof.
  intros f f' n. induction n as [| n IH]; intro Hf.
  - reflexivity.
  - simpl. rewrite IH, Hf by (intros; auto with arith). reflexivity.
Qed.

Lemma prod_n_ext :
  forall (f f' : nat -> R) (n : nat),
    (forall i : nat, (i < n)%nat -> f i = f' i) -> Spec.prod_n f n = Spec.prod_n f' n.
Proof.
  intros f f' n. induction n as [| n IH]; intro Hf.
  - reflexivity.
  - simpl. rewrite IH, Hf by (intros; auto with arith). reflexivity.
Qed.

Lemma sum_n_shift :
  forall (f : nat -> R) (n : nat),
    Spec.sum_n f (S n) = f O + Spec.sum_n (fun i => f (S i)) n.
Proof.
  intros f n. induction n as [| n IH].
  - simpl. ring.
  - change (Spec.sum_n f (S (S n))) with (Spec.sum_n f (S n) + f (S n)).
    rewrite IH. simpl. ring.
Qed.

Lemma prod_n_shift :
  forall (f : nat -> R) (n : nat),
    Spec.prod_n f (S n) = f O * Spec.prod_n (fun i => f (S i)) n.
Proof.
  intros f n. induction n as [| n IH].
  - simpl. ring.
  - change (Spec.prod_n f (S (S n))) with (Spec.prod_n f (S n) * f (S n)).
    rewrite IH. simpl. ring.
Qed.

Lemma day_step_eq :
  forall (params : MonteCarloParams.t) (time_step : R) (price : Price)
         (g : RandomGenerator.t R),
    day_step params time_step price g
    = (price * growth_at params time_step g (delivered (RandomGenerator.gen g)),
       advance 2 g).
Proof.
  intros params time_step price g. unfold day_step.
  rewrite !getRandomValue_eq, advance_advance, value_at_advance.
  unfold growth_at. cbn [advance RandomGenerator.gen delivered].
  reflexivity.
Qed.

Lemma day_loop_eq :
  forall (params : MonteCarloParams.t) (days : nat) (time_step : R)
         (price : Price) (g : RandomGenerator.t R),
    day_loop params days time_step price g
    = (price
       * Spec.prod_n
           (fun day =>
              growth_at params time_step g
                (delivered (RandomGenerator.gen g) + 2 * day))
           days,
       advance (2 * days) g).
Proof.
  intros params days time_step. induction days as [| days IH]; intros price g.
  - simpl. rewrite Rmult_1_r. destruct g as [[w d] a b].
    unfold advance. simpl. rewrite Nat.add_0_r. reflexivity.
  - cbn [day_loop]. rewrite day_step_eq, IH, prod_n_shift, advance_advance.
    f_equal.
    + rewrite Rmult_assoc. f_equal. f_equal.
      * rewrite Nat.mul_0_r, Nat.add_0_r. reflexivity.
      * apply prod_n_ext. intros day _.
        unfold growth_at. rewrite !value_at_advance.
        cbn [advance RandomGenerator.gen delivered].
        replace (delivered (RandomGenerator.gen g) + 2 + 2 * day)%nat
          with (delivered (RandomGenerator.gen g) + 2 * S day)%nat by lia.
        reflexivity.
    + f_equal. lia.
Qed.

Lemma simulation_loop_eq :
  forall (params : MonteCarloParams.t) (simulations total_days : nat)
         (time_step : R) (total_payoff : Price) (g : RandomGenerator.t R),
    simulation_loop params simulations total_days time_step total_payoff g
    = (total_payoff
       + Spec.sum_n
           (fun i =>
              path_payoff params
                (MonteCarloParams.underlying_price params
                 * Spec.prod_n
                     (fun day =>
                        growth_at params time_step g
                          (delivered (RandomGenerator.gen g)
                           + 2 * (i * total_days + day)))
                     total_days))
           simulations,
       advance (2 * total_days * simulations) g).
Proof.
  intros params simulations total_days time_step.
  induction simulations as [| simulations IH]; intros total_payoff g.
  - simpl. rewrite Rplus_0_r, Nat.mul_0_r. destruct g as [[w d] a b].
    unfold advance. simpl. rewrite Nat.add_0_r. reflexivity.
  - cbn [simulation_loop]. rewrite day_loop_eq, IH, sum_n_shift, advance_advance.
    f_equal.
    + rewrite Rplus_assoc. f_equal. f_equal.
      apply sum_n_ext. intros i _. f_equal. f_equal.
      apply prod_n_ext. intros day _.
      unfold growth_at. rewrite !value_at_advance.
      cbn [advance RandomGenerator.gen delivered].
      replace (delivered (RandomGenerator.gen g) + 2 * total_days
               + 2 * (i * total_days + day))%nat
        with (delivered (RandomGenerator.gen g)
              + 2 * (S i * total_days + day))%nat by lia.
      reflexivity.
    + f_equal. lia.
Qed.

Lemma zero_literal_plus : forall x : R, 0.0 + x = x.
Proof. intro x. lra. Qed.

Lemma double_of_size_t_INR :
  forall n : N, double_of_size_t n = INR (N.to_nat n).
Proof.
  intro n. unfold double_of_size_t.
  rewrite INR_IZR_INZ, N_nat_Z. reflexivity.
Qed.

Lemma total_days_spec :
  forall params : MonteCarloParams.t,
    N.to_nat (size_t_of_double (MonteCarloParams.time params * 365.0))
    = Spec.total_days params.
Proof.
  intro params. unfold size_t_of_double, Spec.total_days.
  replace 365.0 with 365 by lra. apply Z_N_nat.
Qed.

Lemma time_step_spec :
  forall params : MonteCarloParams.t,
    MonteCarloParams.time params
    / double_of_size_t (size_t_of_double (MonteCarloParams.time params * 365.0))
    = Spec.time_step params.
Proof.
  intro params. rewrite double_of_size_t_INR, total_days_spec. reflexivity.
Qed.

Lemma uniform_value_at :
  forall (rd : mt19937_64) (m : nat),
    Spec.uniform rd m
    = value_at (RandomGenerator.new rd 0.0 1.0) (delivered rd + m).
Proof.
  intros rd m. unfold Spec.uniform.
  rewrite values_nth by lia.
  replace 0.0 with 0 by lra. replace 1.0 with 1 by lra. reflexivity.
Qed.

Lemma growth_at_spec :
  forall (rd : mt19937_64) (params : MonteCarloParams.t) (j : nat),
    growth_at params (Spec.time_step params) (RandomGenerator.new rd 0.0 1.0)
      (delivered rd + 2 * j)
    = exp (Spec.drift params + Spec.diffusion params (Spec.normal rd j)).
Proof.
  intros rd params j.
  unfold growth_at, Spec.drift, Spec.diffusion, Spec.normal.
  rewrite !uniform_value_at.
  replace (delivered rd + (2 * j + 1))%nat with (delivered rd + 2 * j + 1)%nat by lia.
  replace 2.0 with 2 by lra. replace (-2.0) with (-2) by lra.
  f_equal. f_equal. lra.
Qed.

Lemma path_payoff_spec :
  forall (params : MonteCarloParams.t) (price : R),
    MonteCarloParams.option_type params = Call
    \/ MonteCarloParams.option_type params = Put ->
    path_payoff params price = Spec.payoff params price.
Proof.
  intros params price Hty. unfold path_payoff, Spec.payoff.
  rewrite !std_max_Rmax. replace 0.0 with 0 by lra.
  destruct Hty as [-> | ->]; reflexivity.
Qed.

Lemma calculateMonteCarlo_loop :
  forall (rd : mt19937_64) (params : MonteCarloParams.t),
    calculateMonteCarlo rd params
    = fst (simulation_loop params
             (N.to_nat (MonteCarloParams.number_of_simulations params))
             (Spec.total_days params) (Spec.time_step params) 0.0
             (RandomGenerator.new rd 0.0 1.0))
      / INR (N.to_nat (MonteCarloParams.number_of_simulations params))
      * exp (- (MonteCarloParams.interest_rate params * MonteCarloParams.time params)).
Proof.
  intros rd params. unfold calculateMonteCarlo.
  rewrite total_days_spec, time_step_spec, double_of_size_t_INR, exp_opp_mult.
  destruct (simulation_loop _ _ _ _ _ _) as [total_payoff g]. reflexivity.
Qed.

(** C5: the evaluator computes the algorithm of the specification:
    [total_days = floor(T 365)], [time_step = T / total_days], one path per
    simulation from the underlying price through [total_days] factors
    [exp(drift + diffusion)] with [drift = (r - sigma^2/2) time_step], the
    payoffs [max(price - K, 0)] (Call) or [max(K - price, 0)] (Put) summed,
    and the result [(total_payoff / number_of_simulations) exp(-rT)]. *)
Theorem calculateMonteCarlo_algorithm :
  forall (rd : mt19937_64) (params : MonteCarloParams.t),
    MonteCarloParams.option_type params = Call
    \/ MonteCarloParams.option_type params = Put ->
    calculateMonteCarlo rd params = Spec.MonteCarlo rd params.
Proof.
  intros rd params Hty.
  rewrite calculateMonteCarlo_loop, simulation_loop_eq.
  unfold Spec.MonteCarlo, Spec.total_payoff. cbn [fst].
  rewrite zero_literal_plus. f_equal. f_equal.
  apply sum_n_ext. intros i _.
  rewrite path_payoff_spec by exact Hty.
  unfold Spec.terminal_price. f_equal. f_equal.
  apply prod_n_ext. intros day _.
  apply growth_at_spec.
Qed.

(** The algorithm at the inputs of [main.cpp]. *)
Lemma calculateMonteCarlo_algorithm_witness :
  calculateMonteCarlo counting_engine mtc_params = Spec.MonteCarlo counting_engine mtc_params.
Proof.
  apply (calculateMonteCarlo_algorithm counting_engine mtc_params).
  left. reflexivity.
Defined.

Lemma Int_part_zero : forall x : R, 0 < x < 1 -> Int_part x = 0%Z.
Proof.
  intros x [Hlo Hhi].
  destruct (base_Int_part x) as [Hle Hgt].
  assert (H1 : (Int_part x < 1)%Z) by (apply lt_IZR; lra).
  assert (H2 : (-1 < Int_part x)%Z) by (apply lt_IZR; lra).
  lia.
Qed.

Lemma Int_part_positive : forall x : R, 1 <= x -> (1 <= Int_part x)%Z.
Proof.
  intros x Hx.
  destruct (base_Int_part x) as [Hle Hgt].
  assert (H : (0 < Int_part x)%Z) by (apply lt_IZR; lra).
  lia.
Qed.

Lemma simulation_loop_no_days :
  forall (params : MonteCarloParams.t) (simulations : nat) (time_step : R)
         (total_payoff : Price) (g : RandomGenerator.t R),
    simulation_loop params simulations 0 time_step total_payoff g
    = (total_payoff
       + INR simulations
         * path_payoff params (MonteCarloParams.underlying_price params),
       g).
Proof.
  intros params simulations time_step.
  induction simulations as [| simulations IH]; intros total_payoff g.
  - simpl. f_equal. real_ring.
  - cbn [simulation_loop day_loop]. rewrite IH, S_INR. f_equal. real_ring.
Qed.

(** C9: when [0 < time * 365 < 1] the day count is zero and, for at least
    one simulation, the evaluator returns the discounted payoff at the
    initial price, [max(S - K, 0) e^(-rT)] for a Call and
    [max(K - S, 0) e^(-rT)] for a Put, whatever the engine delivers; the
    simulation loop does not depend on the time step. *)
Theorem calculateMonteCarlo_zero_days :
  forall (rd : mt19937_64) (params : MonteCarloParams.t),
    (1 <= MonteCarloParams.number_of_simulations params)%N ->
    0 < MonteCarloParams.time params * 365 < 1 ->
    let discount_factor :=
      exp (- (MonteCarloParams.interest_rate params * MonteCarloParams.time params)) in
    size_t_of_double (MonteCarloParams.time params * 365.0) = 0%N
    /\ (MonteCarloParams.option_type params = Call ->
        calculateMonteCarlo rd params
        = Rmax (MonteCarloParams.underlying_price params
                - MonteCarloParams.strike_price params) 0 * discount_factor)
    /\ (MonteCarloParams.option_type params = Put ->
        calculateMonteCarlo rd params
        = Rmax (MonteCarloParams.strike_price params
                - MonteCarloParams.underlying_price params) 0 * discount_factor)
    /\ (forall rd' : mt19937_64,
           calculateMonteCarlo rd' params = calculateMonteCarlo rd params)
    /\ (forall (simulations : nat) (time_step time_step' : R) (total_payoff : Price)
               (g : RandomGenerator.t R),
           simulation_loop params simulations 0 time_step total_payoff g
           = simulation_loop params simulations 0 time_step' total_payoff g).
Proof.
  intros rd params Hn Ht discount_factor.
  assert (Hdays : Spec.total_days params = 0%nat).
  { unfold Spec.total_days. rewrite Int_part_zero by exact Ht. reflexivity. }
  assert (Hsims : INR (N.to_nat (MonteCarloParams.number_of_simulations params)) <> 0).
  { apply not_0_INR. lia. }
  assert (Hresult : forall e : mt19937_64,
             calculateMonteCarlo e params
             = path_payoff params (MonteCarloParams.underlying_price params)
               * discount_factor).
  { intro e. rewrite calculateMonteCarlo_loop, Hdays, simulation_loop_no_days.
    cbn [fst]. rewrite zero_literal_plus. fold discount_factor.
    f_equal. field. exact Hsims. }
  split; [ | split; [ | split; [ | split ] ] ].
  - unfold size_t_of_double. replace 365.0 with 365 by lra.
    rewrite Int_part_zero by exact Ht. reflexivity.
  - intro Hty. rewrite Hresult. unfold path_payoff. rewrite Hty.
    cbn [OptionType_eqb]. rewrite std_max_Rmax. replace 0.0 with 0 by lra.
    reflexivity.
  - intro Hty. rewrite Hresult. unfold path_payoff. rewrite Hty.
    cbn [OptionType_eqb]. rewrite std_max_Rmax. replace 0.0 with 0 by lra.
    reflexivity.
  - intro rd'. rewrite !Hresult. reflexivity.
  - intros simulations time_step time_step' total_payoff g.
    rewrite !simulation_loop_no_days. reflexivity.
Qed.

(** Half a day to expiry, one simulation, a Call in the money by 10. *)
Lemma calculateMonteCarlo_zero_days_witness :
  calculateMonteCarlo counting_engine mtc_params_half_day
  = Rmax (100 - 90) 0 * exp (- (0.05 * (1 / 730))).
Proof.
  assert (Hn : (1 <= MonteCarloParams.number_of_simulations mtc_params_half_day)%N).
  { simpl. lia. }
  assert (Ht : 0 < MonteCarloParams.time mtc_params_half_day * 365 < 1).
  { simpl. lra. }
  destruct (calculateMonteCarlo_zero_days counting_engine mtc_params_half_day Hn Ht)
    as (_ & HCall & _).
  apply HCall. reflexivity.
Defined.

(** ** The samples drawn by the evaluator *)

Lemma Trace_day_step_erase :
  forall (params : MonteCarloParams.t) (time_step : R) (price : Price)
         (g : RandomGenerator.t R),
    fst (Trace.day_step params time_step price g) = day_step params time_step price g.
Proof.
  intros params time_step price g. unfold Trace.day_step, day_step.
  destruct (RandomGenerator.getRandomValue g) as [u1 g1].
  destruct (RandomGenerator.getRandomValue g1) as [u2 g2].
  reflexivity.
Qed.

Lemma Trace_day_step_samples :
  forall (params : MonteCarloParams.t) (time_step : R) (price : Price)
         (g : RandomGenerator.t R),
    snd (Trace.day_step params time_step price g)
    = [value_at g (delivered (RandomGenerator.gen g));
       value_at g (delivered (RandomGenerator.gen g) + 1)].
Proof.
  intros params time_step price g. unfold Trace.day_step.
  rewrite !getRandomValue_eq, value_at_advance.
  reflexivity.
Qed.

Lemma Trace_day_loop_erase :
  forall (params : MonteCarloParams.t) (days : nat) (time_step : R)
         (price : Price) (g : RandomGenerator.t R),
    fst (Trace.day_loop params days time_step price g)
    = day_loop params days time_step price g.
Proof.
  intros params days time_step. induction days as [| days IH]; intros price g.
  - reflexivity.
  - cbn [Trace.day_loop day_loop].
    rewrite <- Trace_day_step_erase.
    destruct (Trace.day_step params time_step price g) as [[price' g'] us].
    cbn [fst]. rewrite <- IH.
    destruct (Trace.day_loop params days time_step price' g') as [[price'' g''] us'].
    reflexivity.
Qed.

Lemma Trace_simulation_loop_erase :
  forall (params : MonteCarloParams.t) (simulations total_days : nat)
         (time_step : R) (total_payoff : Price) (g : RandomGenerator.t R),
    fst (Trace.simulation_loop params simulations total_days time_step total_payoff g)
    = simulation_loop params simulations total_days time_step total_payoff g.
Proof.
  intros params simulations total_days time_step.
  induction simulations as [| simulations IH]; intros total_payoff g.
  - reflexivity.
  - cbn [Trace.simulation_loop simulation_loop].
    rewrite <- Trace_day_loop_erase.
    destruct (Trace.day_loop params total_days time_step
                (MonteCarloParams.underlying_price params) g) as [[price g'] us].
    cbn [fst]. rewrite <- IH.
    destruct (Trace.simulation_loop params simulations total_days time_step
                (total_payoff + path_payoff params price) g') as [[total g''] us'].
    reflexivity.
Qed.

(** The instrumented evaluator returns the price of the evaluator. *)
Lemma Trace_calculateMonteCarlo_erase :
  forall (rd : mt19937_64) (params : MonteCarloParams.t),
    fst (Trace.calculateMonteCarlo rd params) = calculateMonteCarlo rd params.
Proof.
  intros rd params. unfold Trace.calculateMonteCarlo, calculateMonteCarlo.
  rewrite <- Trace_simulation_loop_erase.
  destruct (Trace.simulation_loop _ _ _ _ _ _) as [[total g] us].
  reflexivity.
Qed.

Lemma Trace_day_loop_samples :
  forall (params : MonteCarloParams.t) (days : nat) (time_step : R)
         (price : Price) (g : RandomGenerator.t R) (u : R),
    In u (snd (Trace.day_loop params days time_step price g)) ->
    exists m : nat, u = value_at g m.
Proof.
  intros params days time_step. induction days as [| days IH]; intros price g u Hu.
  - contradiction.
  - cbn [Trace.day_loop] in Hu.
    assert (Hstep := Trace_day_step_samples params time_step price g).
    assert (Hgen := Trace_day_step_erase params time_step price g).
    rewrite day_step_eq in Hgen.
    destruct (Trace.day_step params time_step price g) as [[price' g'] us].
    cbn [fst snd] in Hstep, Hgen. injection Hgen as _ Hg'.
    specialize (IH price' g' u).
    destruct (Trace.day_loop params days time_step price' g') as [[price'' g''] us'].
    cbn [snd] in Hu, IH. apply in_app_or in Hu. destruct Hu as [Hu | Hu].
    + rewrite Hstep in Hu. destruct Hu as [Hu | [Hu | []]]; eexists; symmetry; exact Hu.
    + destruct (IH Hu) as [m Hm]. exists m. rewrite Hm, Hg'. reflexivity.
Qed.

Lemma Trace_simulation_loop_samples :
  forall (params : MonteCarloParams.t) (simulations total_days : nat)
         (time_step : R) (total_payoff : Price) (g : RandomGenerator.t R) (u : R),
    In u (snd (Trace.simulation_loop params simulations total_days time_step
                 total_payoff g)) ->
    exists m : nat, u = value_at g m.
Proof.
  intros params simulations total_days time_step.
  induction simulations as [| simulations IH]; intros total_payoff g u Hu.
  - contradiction.
  - cbn [Trace.simulation_loop] in Hu.
    assert (Hdays := Trace_day_loop_samples params total_days time_step
                       (MonteCarloParams.underlying_price params) g u).
    assert (Hgen := Trace_day_loop_erase params total_days time_step
                      (MonteCarloParams.underlying_price params) g).
    rewrite day_loop_eq in Hgen.
    destruct (Trace.day_loop params total_days time_step
                (MonteCarloParams.underlying_price params) g) as [[price g'] us].
    cbn [fst snd] in Hdays, Hgen. injection Hgen as _ Hg'.
    specialize (IH (total_payoff + path_payoff params price) g' u).
    destruct (Trace.simulation_loop params simulations total_days time_step
                (total_payoff + path_payoff params price) g') as [[total g''] us'].
    cbn [snd] in Hu, IH. apply in_app_or in Hu. destruct Hu as [Hu | Hu].
    + exact (Hdays Hu).
    + destruct (IH Hu) as [m Hm]. exists m. rewrite Hm, Hg'. reflexivity.
Qed.

Lemma samples_value_at :
  forall (rd : mt19937_64) (params : MonteCarloParams.t) (u : R),
    In u (Trace.samples rd params) ->
    exists m : nat, u = value_at (RandomGenerator.new rd 0.0 1.0) m.
Proof.
  intros rd params u. unfold Trace.samples, Trace.calculateMonteCarlo.
  set (total_days := size_t_of_double (MonteCarloParams.time params * 365.0)).
  set (time_step := MonteCarloParams.time params / double_of_size_t total_days).
  assert (H := Trace_simulation_loop_samples params
                 (N.to_nat (MonteCarloParams.number_of_simulations params))
                 (N.to_nat total_days) time_step 0.0
                 (RandomGenerator.new rd 0.0 1.0) u).
  destruct (Trace.simulation_loop _ _ _ _ _ _) as [[total g] us].
  exact H.
Qed.

(** With a simulation and a day to run, the first sample comes from the
    first word of the engine. *)
Lemma samples_first :
  forall (rd : mt19937_64) (params : MonteCarloParams.t),
    (1 <= MonteCarloParams.number_of_simulations params)%N ->
    1 <= MonteCarloParams.time params * 365 ->
    In (value_at (RandomGenerator.new rd 0.0 1.0) (delivered rd))
       (Trace.samples rd params).
Proof.
  intros rd params Hn Ht. unfold Trace.samples, Trace.calculateMonteCarlo.
  rewrite total_days_spec.
  assert (Hdays : exists days, Spec.total_days params = S days).
  { unfold Spec.total_days.
    assert (H := Int_part_positive _ Ht).
    exists (Nat.pred (Z.to_nat (Int_part (MonteCarloParams.time params * 365)))).
    lia. }
  assert (Hsims : exists sims,
             N.to_nat (MonteCarloParams.number_of_simulations params) = S sims).
  { exists (Nat.pred (N.to_nat (MonteCarloParams.number_of_simulations params))).
    lia. }
  destruct Hdays as [days ->]. destruct Hsims as [sims ->].
  cbn [Trace.simulation_loop Trace.day_loop].
  assert (Hstep := Trace_day_step_samples params
                     (MonteCarloParams.time params
                      / double_of_size_t
                          (size_t_of_double (MonteCarloParams.time params * 365.0)))
                     (MonteCarloParams.underlying_price params)
                     (RandomGenerator.new rd 0.0 1.0)).
  destruct (Trace.day_step _ _ _ _) as [[price' g'] us].
  cbn [snd] in Hstep. subst us.
  destruct (Trace.day_loop _ _ _ _ _) as [[price'' g''] us'].
  destruct (Trace.simulation_loop _ _ _ _ _ _) as [[total g'''] us''].
  cbn [snd]. left. reflexivity.
Qed.

Lemma value_at_unit_range :
  forall (rd : mt19937_64) (m : nat),
    0 <= value_at (RandomGenerator.new rd 0.0 1.0) m < 1.
Proof.
  intros rd m.
  destruct (value_at_double_range rd 0.0 1.0 m) as [[Hlo _] Hhi].
  rewrite Rmin_left in Hlo by lra. rewrite Rmax_right in Hhi by lra.
  split; [ lra | ].
  assert (H : 0.0 <> 1.0) by lra. specialize (Hhi H). lra.
Qed.

Lemma value_at_counting_engine :
  value_at (RandomGenerator.new counting_engine 0.0 1.0) (delivered counting_engine)
  = 0.
Proof.
  unfold value_at, RandomGenerator.new.
  cbn [RandomGenerator.distribution_a RandomGenerator.distribution_b
       RandomGenerator.gen distribution RandomType_double counting_engine words
       delivered Z.of_nat].
  rewrite std_min_Rmin, std_max_Rmax, Rmin_left, Rmax_right by lra.
  unfold uniform_real_distribution, generate_canonical.
  rewrite Z.mod_0_l by discriminate. unfold Rdiv. lra.
Qed.

Lemma zero_sample_drawn : In 0 (Trace.samples counting_engine mtc_params).
Proof.
  rewrite <- value_at_counting_engine.
  apply samples_first.
  - cbn [mtc_params MonteCarloParams.number_of_simulations]. lia.
  - cbn [mtc_params MonteCarloParams.time]. lra.
Qed.

(** C6, as the claim states it, fails: when the first word of the engine is
    0 the first sample [u1] of the evaluation of [main.cpp] is 0, outside the
    open interval. *)
Lemma samples_not_in_open_interval :
  ~ (forall u : R, In u (Trace.samples counting_engine mtc_params) -> 0 < u < 1).
Proof.
  intro H. specialize (H 0 zero_sample_drawn). lra.
Qed.

(** C6, amended: every uniform sample drawn during an evaluation lies in
    the half-open interval [0, 1). *)
Theorem samples_in_half_open_interval :
  forall (rd : mt19937_64) (params : MonteCarloParams.t) (u : R),
    In u (Trace.samples rd params) -> 0 <= u < 1.
Proof.
  intros rd params u Hu.
  destruct (samples_value_at rd params u Hu) as [m ->].
  apply value_at_unit_range.
Qed.

(** The sample 0 of the evaluation above. *)
Lemma samples_in_half_open_interval_witness : 0 <= 0 < 1.
Proof.
  apply (samples_in_half_open_interval counting_engine mtc_params 0).
  exact zero_sample_drawn.
Defined.

(** ** The paid price *)

Lemma calculateBlackScholes_paid_price :
  forall p p' : BlackScholesParams.t,
    BlackScholesParams_same_but_paid_price p p' ->
    calculateBlackScholes p = calculateBlackScholes p'.
Proof.
  intros [r s k t sigma ty paid] [r' s' k' t' sigma' ty' paid'].
  unfold BlackScholesParams_same_but_paid_price. simpl.
  intros (-> & -> & -> & -> & -> & ->). reflexivity.
Qed.

Lemma calculateGreeks_paid_price :
  forall (p p' : GreeksParams.t) (greek : Greeks),
    GreeksParams_same_but_paid_price p p' ->
    calculateGreeks p greek = calculateGreeks p' greek.
Proof.
  intros [r s k t sigma ty paid q] [r' s' k' t' sigma' ty' paid' q'] greek.
  unfold GreeksParams_same_but_paid_price. simpl.
  intros (-> & -> & -> & -> & -> & -> & ->). reflexivity.
Qed.

Lemma calculateMonteCarlo_paid_price :
  forall (rd : mt19937_64) (p p' : MonteCarloParams.t),
    MonteCarloParams_same_but_paid_price p p' ->
    calculateMonteCarlo rd p = calculateMonteCarlo rd p'.
Proof.
  intros rd [n r s k t sigma ty paid] [n' r' s' k' t' sigma' ty' paid'].
  unfold MonteCarloParams_same_but_paid_price. simpl.
  intros (-> & -> & -> & -> & -> & -> & ->).
  rewrite !calculateMonteCarlo_loop, !simulation_loop_eq.
  reflexivity.
Qed.

(** C10: two calls whose inputs differ only in [paid_price] give the same
    result, for the Black-Scholes evaluator, for the Greeks evaluator and,
    for every sequence of random draws, for the Monte Carlo evaluator. *)
Theorem paid_price_independence :
  (forall p p' : BlackScholesParams.t,
      BlackScholesParams_same_but_paid_price p p' ->
      calculateBlackScholes p = calculateBlackScholes p')
  /\ (forall (p p' : GreeksParams.t) (greek : Greeks),
         GreeksParams_same_but_paid_price p p' ->
         calculateGreeks p greek = calculateGreeks p' greek)
  /\ (forall (rd : mt19937_64) (p p' : MonteCarloParams.t),
         MonteCarloParams_same_but_paid_price p p' ->
         calculateMonteCarlo rd p = calculateMonteCarlo rd p').
Proof.
  split; [ exact calculateBlackScholes_paid_price | ].
  split; [ exact calculateGreeks_paid_price | exact calculateMonteCarlo_paid_price ].
Qed.

(** The inputs of [main.cpp] with the paid price 5 replaced by 7. *)
Lemma paid_price_independence_witness :
  calculateBlackScholes bs_params
  = calculateBlackScholes (BlackScholesParams.make 0.2 100.0 105.0 0.5 0.3 Call 7.0)
  /\ calculateMonteCarlo counting_engine mtc_params
     = calculateMonteCarlo counting_engine
         (MonteCarloParams.make 1000000 0.2 100.0 105.0 0.5 0.3 Call 7.0).
Proof.
  split.
  - apply (proj1 paid_price_independence).
    unfold BlackScholesParams_same_but_paid_price. simpl. repeat split.
  - apply (proj2 (proj2 paid_price_independence)).
    unfold MonteCarloParams_same_but_paid_price. simpl. repeat split.
Defined.

(** * Further properties *)

(** ** Strategy payoffs *)

Lemma calculatePayoff_Call :
  forall strike premium spot : Price,
    Option.calculatePayoff (Option.make strike premium Call) spot
    = Rmax (spot - strike) 0 - premium.
Proof.
  intros strike premium spot. unfold Option.calculatePayoff.
  cbn [Option.option_type_ Option.strike_ Option.premium_ OptionType_eqb].
  rewrite std_max_Rmax. replace 0.0 with 0 by lra. reflexivity.
Qed.

Lemma calculatePayoff_Put :
  forall strike premium spot : Price,
    Option.calculatePayoff (Option.make strike premium Put) spot
    = Rmax (strike - spot) 0 - premium.
Proof.
  intros strike premium spot. unfold Option.calculatePayoff.
  cbn [Option.option_type_ Option.strike_ Option.premium_ OptionType_eqb].
  rewrite std_max_Rmax. replace 0.0 with 0 by lra. reflexivity.
Qed.

(** Case analysis on every [Rmax] of the goal, closed by linear arithmetic. *)
Ltac rmax_cases :=
  unfold Price, StrategyPayoff in *; unfold Rmax in *;
  repeat match goal with
         | |- context [Rle_dec ?a ?b] => destruct (Rle_dec a b)
         | H : context [Rle_dec ?a ?b] |- _ => destruct (Rle_dec a b)
         end;
  try lra.

(** X1: a put spread of two puts with the long strike above the short one
    pays between the net premium [ps - pl] and the strike difference plus the
    net premium; it pays the former at and above the long strike and the
    latter at and below the short strike. *)
Theorem getPutSpread_bounds :
  forall Kl pl Ks ps spot : Price,
    Ks < Kl ->
    exists v : StrategyPayoff,
      CalculateStrategy.getPutSpread (Option.make Kl pl Put) (Option.make Ks ps Put) spot
      = Returns v
      /\ ps - pl <= v <= (Kl - Ks) + (ps - pl)
      /\ (Kl <= spot -> v = ps - pl)
      /\ (spot <= Ks -> v = (Kl - Ks) + (ps - pl)).
Proof.
  intros Kl pl Ks ps spot HK. unfold CalculateStrategy.getPutSpread.
  cbn [Option.getStrike Option.strike_].
  destruct (Rle_dec Kl Ks) as [Hle | _]; [ unfold Price in *; lra | ].
  eexists. split; [ reflexivity | ].
  rewrite !calculatePayoff_Put.
  repeat split; intros; rmax_cases.
Qed.

Lemma getPutSpread_bounds_witness :
  exists v : StrategyPayoff,
    CalculateStrategy.getPutSpread (Option.make 105 6 Put) (Option.make 95 2 Put) 100
    = Returns v
    /\ 2 - 6 <= v <= (105 - 95) + (2 - 6)
    /\ (105 <= 100 -> v = 2 - 6)
    /\ (100 <= 95 -> v = (105 - 95) + (2 - 6)).
Proof.
  apply (getPutSpread_bounds 105 6 95 2 100). lra.
Defined.

(** X2: a call spread of two calls with the long strike below the short one
    pays between the net premium [ps - pl] and the strike difference plus the
    net premium; it pays the former at and below the long strike and the
    latter at and above the short strike. *)
Theorem getCallSpread_bounds :
  forall Kl pl Ks ps spot : Price,
    Kl < Ks ->
    exists v : StrategyPayoff,
      CalculateStrategy.getCallSpread (Option.make Kl pl Call) (Option.make Ks ps Call) spot
      = Returns v
      /\ ps - pl <= v <= (Ks - Kl) + (ps - pl)
      /\ (spot <= Kl -> v = ps - pl)
      /\ (Ks <= spot -> v = (Ks - Kl) + (ps - pl)).
Proof.
  intros Kl pl Ks ps spot HK. unfold CalculateStrategy.getCallSpread.
  cbn [Option.getStrike Option.strike_].
  destruct (Rge_dec Kl Ks) as [Hge | _]; [ unfold Price in *; lra | ].
  eexists. split; [ reflexivity | ].
  rewrite !calculatePayoff_Call.
  repeat split; intros; rmax_cases.
Qed.

Lemma getCallSpread_bounds_witness :
  exists v : StrategyPayoff,
    CalculateStrategy.getCallSpread (Option.make 95 6 Call) (Option.make 105 2 Call) 100
    = Returns v
    /\ 2 - 6 <= v <= (105 - 95) + (2 - 6)
    /\ (100 <= 95 -> v = 2 - 6)
    /\ (105 <= 100 -> v = (105 - 95) + (2 - 6)).
Proof.
  apply (getCallSpread_bounds 95 6 105 2 100). lra.
Defined.

(** X3: a call spread and the put spread of the same two options in the
    opposite roles are refused together, and otherwise pay opposite amounts,
    whatever the types of the options. *)
Theorem getCallSpread_getPutSpread_opposite :
  forall (a b : Option.t) (spot : Price),
    is_validation_error (CalculateStrategy.getCallSpread a b spot)
    = is_validation_error (CalculateStrategy.getPutSpread b a spot)
    /\ (forall v : StrategyPayoff,
           CalculateStrategy.getCallSpread a b spot = Returns v ->
           CalculateStrategy.getPutSpread b a spot = Returns (- v)).
Proof.
  intros a b spot.
  unfold CalculateStrategy.getCallSpread, CalculateStrategy.getPutSpread.
  destruct (Rge_dec (Option.getStrike a) (Option.getStrike b)) as [Hge | Hlt];
    destruct (Rle_dec (Option.getStrike b) (Option.getStrike a)) as [Hle | Hgt];
    try (exfalso; unfold Price in *; lra).
  - split; [ reflexivity | discriminate ].
  - split; [ reflexivity | ].
    intros v Hv. injection Hv as <-. f_equal. real_ring.
Qed.

Lemma getCallSpread_getPutSpread_opposite_witness :
  CalculateStrategy.getPutSpread (Option.make 105 2 Call) (Option.make 95 6 Call) 100
  = Returns (- (Option.calculatePayoff (Option.make 95 6 Call) 100
                - Option.calculatePayoff (Option.make 105 2 Call) 100)).
Proof.
  apply (proj2 (getCallSpread_getPutSpread_opposite
                  (Option.make 95 6 Call) (Option.make 105 2 Call) 100)).
  unfold CalculateStrategy.getCallSpread. cbn [Option.getStrike Option.strike_].
  destruct (Rge_dec 95 105) as [Hge | _]; [ lra | reflexivity ].
Defined.

(** X4: a butterfly is the call spread of the lower wing against the body
    minus the call spread of the body against the upper wing: it is refused
    exactly when one of the two spreads is, and otherwise pays the
    difference of what they pay. *)
Theorem getButterfly_two_spreads :
  forall (wing1 body wing2 : Option.t) (spot : Price),
    is_validation_error (CalculateStrategy.getButterfly wing1 body wing2 spot)
    = orb (is_validation_error (CalculateStrategy.getCallSpread wing1 body spot))
          (is_validation_error (CalculateStrategy.getCallSpread body wing2 spot))
    /\ (forall v1 v2 : StrategyPayoff,
           CalculateStrategy.getCallSpread wing1 body spot = Returns v1 ->
           CalculateStrategy.getCallSpread body wing2 spot = Returns v2 ->
           CalculateStrategy.getButterfly wing1 body wing2 spot = Returns (v1 - v2)).
Proof.
  intros wing1 body wing2 spot.
  unfold CalculateStrategy.getButterfly, CalculateStrategy.getCallSpread.
  destruct (Rge_dec (Option.getStrike wing1) (Option.getStrike body));
    destruct (Rge_dec (Option.getStrike body) (Option.getStrike wing2));
    (split; [ reflexivity | ]); intros v1 v2 H1 H2; try discriminate.
  injection H1 as <-. injection H2 as <-. f_equal.
  unfold Price, StrategyPayoff in *. lra.
Qed.

Lemma getButterfly_two_spreads_witness :
  CalculateStrategy.getButterfly
    (Option.make 90 12 Call) (Option.make 100 5 Call) (Option.make 110 2 Call) 100
  = Returns
      ((Option.calculatePayoff (Option.make 90 12 Call) 100
        - Option.calculatePayoff (Option.make 100 5 Call) 100)
       - (Option.calculatePayoff (Option.make 100 5 Call) 100
          - Option.calculatePayoff (Option.make 110 2 Call) 100)).
Proof.
  apply (proj2 (getButterfly_two_spreads
                  (Option.make 90 12 Call) (Option.make 100 5 Call)
                  (Option.make 110 2 Call) 100)).
  - unfold CalculateStrategy.getCallSpread. cbn [Option.getStrike Option.strike_].
    destruct (Rge_dec 90 100) as [Hge | _]; [ lra | reflexivity ].
  - unfold CalculateStrategy.getCallSpread. cbn [Option.getStrike Option.strike_].
    destruct (Rge_dec 100 110) as [Hge | _]; [ lra | reflexivity ].
Defined.

(** X5: a butterfly of three calls with ascending strikes and net premium
    [p1 - 2 p2 + p3] never pays more than [K2 - K1] less the net premium,
    which it pays at the body strike; at and below the lower wing it loses
    the net premium, and at and above the upper wing it pays
    [2 K2 - K1 - K3] less the net premium. *)
Theorem getButterfly_bounds :
  forall K1 p1 K2 p2 K3 p3 spot : Price,
    K1 < K2 -> K2 < K3 ->
    exists v : StrategyPayoff,
      CalculateStrategy.getButterfly
        (Option.make K1 p1 Call) (Option.make K2 p2 Call) (Option.make K3 p3 Call) spot
      = Returns v
      /\ v <= (K2 - K1) - (p1 - 2 * p2 + p3)
      /\ (spot = K2 -> v = (K2 - K1) - (p1 - 2 * p2 + p3))
      /\ (spot <= K1 -> v = - (p1 - 2 * p2 + p3))
      /\ (K3 <= spot -> v = (2 * K2 - K1 - K3) - (p1 - 2 * p2 + p3)).
Proof.
  intros K1 p1 K2 p2 K3 p3 spot H12 H23. unfold CalculateStrategy.getButterfly.
  cbn [Option.getStrike Option.strike_].
  destruct (Rge_dec K1 K2) as [Hge | _]; [ unfold Price in *; lra | ].
  destruct (Rge_dec K2 K3) as [Hge | _]; [ unfold Price in *; lra | ].
  eexists. split; [ reflexivity | ].
  rewrite !calculatePayoff_Call. replace 2.0 with 2 by lra.
  repeat split; intros; rmax_cases.
Qed.

Lemma getButterfly_bounds_witness :
  exists v : StrategyPayoff,
    CalculateStrategy.getButterfly
      (Option.make 90 12 Call) (Option.make 100 5 Call) (Option.make 110 2 Call) 100
    = Returns v
    /\ v <= (100 - 90) - (12 - 2 * 5 + 2)
    /\ (100 = 100 -> v = (100 - 90) - (12 - 2 * 5 + 2))
    /\ (100 <= 90 -> v = - (12 - 2 * 5 + 2))
    /\ (110 <= 100 -> v = (2 * 100 - 90 - 110) - (12 - 2 * 5 + 2)).
Proof.
  apply (getButterfly_bounds 90 12 100 5 110 2 100); lra.
Defined.

(** X6: a strangle of a put and a call with the put strike below the call
    strike never loses more than the two premiums, and loses exactly that
    when the spot lies between the strikes (bounds included). *)
Theorem getStrangle_bounds :
  forall Kp pp Kc pc spot : Price,
    Kp < Kc ->
    exists v : StrategyPayoff,
      CalculateStrategy.getStrangle (Option.make Kp pp Put) (Option.make Kc pc Call) spot
      = Returns v
      /\ - (pp + pc) <= v
      /\ (v = - (pp + pc) <-> Kp <= spot <= Kc).
Proof.
  intros Kp pp Kc pc spot HK. unfold CalculateStrategy.getStrangle.
  cbn [Option.getStrike Option.strike_].
  destruct (Rge_dec Kp Kc) as [Hge | _]; [ unfold Price in *; lra | ].
  eexists. split; [ reflexivity | ].
  rewrite calculatePayoff_Put, calculatePayoff_Call.
  repeat split; intros; rmax_cases.
Qed.

Lemma getStrangle_bounds_witness :
  exists v : StrategyPayoff,
    CalculateStrategy.getStrangle (Option.make 95 3 Put) (Option.make 105 4 Call) 100
    = Returns v
    /\ - (3 + 4) <= v
    /\ (v = - (3 + 4) <-> 95 <= 100 <= 105).
Proof.
  apply (getStrangle_bounds 95 3 105 4 100). lra.
Defined.

(** X7: a straddle of a put and a call at one strike pays the distance of
    the spot from the strike less the two premiums. *)
Theorem getStraddle_absolute_value :
  forall K pp pc spot : Price,
    CalculateStrategy.getStraddle (Option.make K pp Put) (Option.make K pc Call) spot
    = Returns (Rabs (spot - K) - (pp + pc)).
Proof.
  intros K pp pc spot. unfold CalculateStrategy.getStraddle.
  cbn [Option.getStrike Option.strike_].
  destruct (Req_dec_T K K) as [_ | Hne]; [ | contradiction Hne; reflexivity ].
  rewrite calculatePayoff_Put, calculatePayoff_Call. f_equal.
  unfold Rabs. destruct (Rcase_abs (spot - K)); rmax_cases.
Qed.

(** X8: each strategy is refused exactly when its strikes are out of order:
    the put spread unless long > short, the call spread unless long < short,
    the butterfly unless the three strikes ascend strictly, the strangle
    unless put < call, the straddle unless the strikes are equal; so a
    strangle and a straddle of the same two options are never both paid. *)
Theorem strategy_validation :
  forall (a b c : Option.t) (spot : Price),
    (is_validation_error (CalculateStrategy.getPutSpread a b spot) = true
     <-> Option.getStrike a <= Option.getStrike b)
    /\ (is_validation_error (CalculateStrategy.getCallSpread a b spot) = true
        <-> Option.getStrike a >= Option.getStrike b)
    /\ (is_validation_error (CalculateStrategy.getButterfly a b c spot) = true
        <-> ~ (Option.getStrike a < Option.getStrike b < Option.getStrike c))
    /\ (is_validation_error (CalculateStrategy.getStrangle a b spot) = true
        <-> Option.getStrike a >= Option.getStrike b)
    /\ (is_validation_error (CalculateStrategy.getStraddle a b spot) = true
        <-> Option.getStrike a <> Option.getStrike b)
    /\ (is_validation_error (CalculateStrategy.getStrangle a b spot) = true
        \/ is_validation_error (CalculateStrategy.getStraddle a b spot) = true).
Proof.
  intros a b c spot.
  unfold CalculateStrategy.getPutSpread, CalculateStrategy.getCallSpread,
    CalculateStrategy.getButterfly, CalculateStrategy.getStrangle,
    CalculateStrategy.getStraddle.
  generalize (Option.getStrike a) (Option.getStrike b) (Option.getStrike c).
  unfold Price. intros Ka Kb Kc.
  destruct (Rle_dec Ka Kb); destruct (Rge_dec Ka Kb); destruct (Rge_dec Kb Kc);
    destruct (Req_dec_T Ka Kb); cbn [is_validation_error];
    repeat split; intros; try discriminate; try reflexivity; try lra;
    try (left; reflexivity); try (right; reflexivity).
Qed.

(** ** Futures valuation *)

(** X9: for a rate above -100% compounding composes: the future value over
    [t1] taken as present value over a further [t2] is the future value over
    [t1 + t2]; in particular valuing forward over [t] and back over [- t]
    returns the present value. *)
Theorem calculateFutures_compounding :
  forall (present_value rate t1 t2 : R),
    0 < 1 + rate ->
    calculateFutures
      (FuturesParams.make
         (calculateFutures (FuturesParams.make present_value rate t1)) rate t2)
    = calculateFutures (FuturesParams.make present_value rate (t1 + t2))
    /\ calculateFutures
         (FuturesParams.make
            (calculateFutures (FuturesParams.make present_value rate t1)) rate (- t1))
       = present_value.
Proof.
  intros present_value rate t1 t2 Hrate.
  unfold calculateFutures, std_pow.
  cbn [FuturesParams.present_value FuturesParams.interest_rate FuturesParams.time].
  split.
  - rewrite Rpower_plus. real_ring.
  - rewrite Rmult_assoc, <- Rpower_plus, Rplus_opp_r, Rpower_O by exact Hrate.
    real_ring.
Qed.

Lemma calculateFutures_compounding_witness :
  calculateFutures
    (FuturesParams.make (calculateFutures (FuturesParams.make 100 0.05 2)) 0.05 3)
  = calculateFutures (FuturesParams.make 100 0.05 (2 + 3))
  /\ calculateFutures
       (FuturesParams.make (calculateFutures (FuturesParams.make 100 0.05 2)) 0.05 (- 2))
     = 100.
Proof.
  apply (calculateFutures_compounding 100 0.05 2 3). lra.
Defined.

(** X10: for a rate above -100% the future value over a whole number [n] of
    years is the present value times [(1 + rate)^n]; over no time it is the
    present value. *)
Theorem calculateFutures_whole_years :
  forall (present_value rate : R) (n : nat),
    0 < 1 + rate ->
    calculateFutures (FuturesParams.make present_value rate (INR n))
    = present_value * (1 + rate) ^ n
    /\ calculateFutures (FuturesParams.make present_value rate 0) = present_value.
Proof.
  intros present_value rate n Hrate.
  unfold calculateFutures, std_pow.
  cbn [FuturesParams.present_value FuturesParams.interest_rate FuturesParams.time].
  rewrite Rpower_pow, Rpower_O by exact Hrate.
  split; [ reflexivity | real_ring ].
Qed.

Lemma calculateFutures_whole_years_witness :
  calculateFutures (FuturesParams.make 100 0.05 (INR 2)) = 100 * (1 + 0.05) ^ 2
  /\ calculateFutures (FuturesParams.make 100 0.05 0) = 100.
Proof.
  apply (calculateFutures_whole_years 100 0.05 2). lra.
Defined.

(** X11: a positive present value grows strictly with time at a positive
    rate, and stays what it is at the rate zero. *)
Theorem calculateFutures_monotone :
  forall (present_value rate t1 t2 : R),
    0 < present_value -> t1 < t2 ->
    (0 < rate ->
     calculateFutures (FuturesParams.make present_value rate t1)
     < calculateFutures (FuturesParams.make present_value rate t2))
    /\ calculateFutures (FuturesParams.make present_value 0 t1) = present_value.
Proof.
  intros present_value rate t1 t2 Hpv Ht.
  unfold calculateFutures, std_pow.
  cbn [FuturesParams.present_value FuturesParams.interest_rate FuturesParams.time].
  split.
  - intro Hrate. apply Rmult_lt_compat_l; [ exact Hpv | ].
    apply Rpower_lt; [ lra | exact Ht ].
  - unfold Rpower. rewrite Rplus_0_r, ln_1, Rmult_0_r, exp_0. real_ring.
Qed.

Lemma calculateFutures_monotone_witness :
  calculateFutures (FuturesParams.make 100 0.05 1)
  < calculateFutures (FuturesParams.make 100 0.05 2).
Proof.
  apply (proj1 (calculateFutures_monotone 100 0.05 1 2 ltac:(lra) ltac:(lra))).
  lra.
Defined.

(** ** Standard normal utilities *)

Lemma sqrt_2_MATH_PI_pos : 0 < sqrt (2.0 * MATH_PI).
Proof.
  apply sqrt_lt_R0. unfold MATH_PI. lra.
Qed.


(** X12: the density is even, positive, and largest at 0, where it is
    [1 / sqrt (2 MATH_PI)]. *)
Theorem normalPdf_shape :
  forall x : R,
    normalPdf (- x) = normalPdf x
    /\ 0 < normalPdf x
    /\ normalPdf x <= normalPdf 0
    /\ normalPdf 0 = 1 / sqrt (2 * MATH_PI).
Proof.
  intro x. unfold normalPdf.
  assert (Hs := sqrt_2_MATH_PI_pos).
  assert (Hc : 0 < 1.0 / sqrt (2.0 * MATH_PI)).
  { apply Rdiv_lt_0_compat; [ lra | exact Hs ]. }
  split; [ | split; [ | split ] ].
  - f_equal. f_equal. ring.
  - apply Rmult_lt_0_compat; [ exact Hc | apply exp_pos ].
  - apply Rmult_le_compat_l; [ lra | ].
    replace (- 0.5 * 0 * 0) with 0 by lra.
    destruct (Req_dec_T x 0) as [-> | Hx].
    + replace (- 0.5 * 0 * 0) with 0 by lra. lra.
    + left. apply exp_increasing.
      assert (H : 0 < x * x) by (apply Rsqr_pos_lt; exact Hx).
      lra.
  - replace (- 0.5 * 0 * 0) with 0 by lra.
    rewrite exp_0. replace 2.0 with 2 by lra. lra.
Qed.

(** X13: the distribution function satisfies
    [normalCdf x + normalCdf (- x) = 1], and is one half at 0. *)
Theorem normalCdf_reflection :
  forall x : R,
    normalCdf x + normalCdf (- x) = 1 /\ normalCdf 0 = 0.5.
Proof.
  intro x. rewrite !normalCdf_Phi, Phi_reflect, Phi_0.
  split; lra.
Qed.

(** ** Greeks evaluator *)





(** ** Homogeneity in the price unit *)

Lemma scaled_moneyness :
  forall lambda s k : R, 0 < lambda -> 0 < k -> lambda * s / (lambda * k) = s / k.
Proof.
  intros lambda s k Hl Hk. field. split; lra.
Qed.

(** X16: the Black-Scholes price is homogeneous of degree one in the
    underlying and strike prices: quoting both in another unit scales the
    price by the same positive factor, and leaves a refusal as it is. *)
Theorem calculateBlackScholes_homogeneous :
  forall (lambda r s k t sigma paid : R) (option_type : OptionType),
    0 < lambda -> 0 < k ->
    calculateBlackScholes
      (BlackScholesParams.make r (lambda * s) (lambda * k) t sigma option_type paid)
    = Outcome_map (Rmult lambda)
        (calculateBlackScholes
           (BlackScholesParams.make r s k t sigma option_type paid)).
Proof.
  intros lambda r s k t sigma paid option_type Hl Hk.
  unfold calculateBlackScholes. rewrite scaled_moneyness by assumption.
  destruct option_type; cbn [Outcome_map]; try reflexivity; f_equal; real_ring.
Qed.

Lemma calculateBlackScholes_homogeneous_witness :
  calculateBlackScholes (BlackScholesParams.make 0.2 (2 * 100.0) (2 * 105.0) 0.5 0.3 Call 5.0)
  = Outcome_map (Rmult 2) (calculateBlackScholes bs_params).
Proof.
  apply (calculateBlackScholes_homogeneous 2 0.2 100.0 105.0 0.5 0.3 5.0 Call); lra.
Defined.

(** X17: under the same change of unit Delta is unchanged, Gamma is divided
    by the factor, and Theta, Vega and Rho are multiplied by it. *)
Theorem calculateGreeks_homogeneous :
  forall (lambda r s k t sigma paid q : R) (option_type : OptionType) (greek : Greeks),
    0 < lambda -> 0 < k -> 0 < s ->
    calculateGreeks
      (GreeksParams.make r (lambda * s) (lambda * k) t sigma option_type paid q) greek
    = Outcome_map
        (fun v => match greek with
                  | Delta => v
                  | Gamma => v / lambda
                  | _ => lambda * v
                  end)
        (calculateGreeks
           (GreeksParams.make r s k t sigma option_type paid q) greek).
Proof.
  intros lambda r s k t sigma paid q option_type greek Hl Hk Hs.
  unfold calculateGreeks.
  destruct (Rle_dec t 0) as [Ht | Ht]; [ reflexivity | ].
  destruct (Rle_dec sigma 0) as [Hsigma | Hsigma]; [ reflexivity | ].
  rewrite scaled_moneyness by assumption.
  assert (Hroot : 0 < sqrt t) by (apply sqrt_lt_R0; lra).
  destruct greek; cbn [Outcome_map]; try reflexivity; f_equal;
    try (destruct (OptionType_eqb option_type Call)); unfold Price in *;
    first [ ring | field; repeat split; lra ].
Qed.

Lemma calculateGreeks_homogeneous_witness :
  calculateGreeks (GreeksParams.make 0.05 (2 * 100) (2 * 100) 1 0.2 Call 0 0) Gamma
  = Outcome_map (fun v => v / 2) (calculateGreeks greeks_params Gamma).
Proof.
  apply (calculateGreeks_homogeneous 2 0.05 100 100 1 0.2 0 0 Call Gamma); lra.
Defined.

(** ** Monte Carlo evaluator *)

Lemma growth_at_pos :
  forall (params : MonteCarloParams.t) (time_step : R) (g : RandomGenerator.t R)
         (m : nat),
    0 < growth_at params time_step g m.
Proof.
  intros params time_step g m. unfold growth_at. apply exp_pos.
Qed.

Lemma prod_n_pos :
  forall (f : nat -> R) (n : nat),
    (forall i : nat, 0 < f i) -> 0 < Spec.prod_n f n.
Proof.
  intros f n Hf. induction n as [| n IH].
  - simpl. lra.
  - simpl. apply Rmult_lt_0_compat; [ exact IH | apply Hf ].
Qed.

Lemma sum_n_bounds :
  forall (f : nat -> R) (lo hi : R) (n : nat),
    (forall i : nat, lo <= f i <= hi) ->
    INR n * lo <= Spec.sum_n f n <= INR n * hi.
Proof.
  intros f lo hi n Hf. induction n as [| n IH].
  - simpl. lra.
  - change (Spec.sum_n f (S n)) with (Spec.sum_n f n + f n).
    rewrite S_INR. specialize (Hf n). lra.
Qed.

Lemma path_payoff_nonneg :
  forall (params : MonteCarloParams.t) (price : R), 0 <= path_payoff params price.
Proof.
  intros params price. unfold path_payoff.
  destruct (OptionType_eqb _ Call); [ | destruct (OptionType_eqb _ Put) ];
    rewrite ?std_max_Rmax;
    try (apply Rle_trans with 0.0; [ lra | apply Rmax_r ]); lra.
Qed.

Lemma sum_n_nonneg :
  forall (f : nat -> R) (n : nat),
    (forall i : nat, 0 <= f i) -> 0 <= Spec.sum_n f n.
Proof.
  intros f n Hf. induction n as [| n IH].
  - simpl. lra.
  - change (Spec.sum_n f (S n)) with (Spec.sum_n f n + f n).
    specialize (Hf n). lra.
Qed.

(** The evaluator as the discounted mean of the payoffs of its paths. *)
Lemma calculateMonteCarlo_mean :
  forall (rd : mt19937_64) (params : MonteCarloParams.t),
    calculateMonteCarlo rd params
    = Spec.sum_n
        (fun i =>
           path_payoff params
             (MonteCarloParams.underlying_price params
              * Spec.prod_n
                  (fun day =>
                     growth_at params (Spec.time_step params)
                       (RandomGenerator.new rd 0.0 1.0)
                       (delivered rd + 2 * (i * Spec.total_days params + day)))
                  (Spec.total_days params)))
        (N.to_nat (MonteCarloParams.number_of_simulations params))
      / INR (N.to_nat (MonteCarloParams.number_of_simulations params))
      * exp (- (MonteCarloParams.interest_rate params * MonteCarloParams.time params)).
Proof.
  intros rd params.
  rewrite calculateMonteCarlo_loop, simulation_loop_eq. cbn [fst].
  rewrite zero_literal_plus. reflexivity.
Qed.

Lemma mean_bounds :
  forall (f : nat -> R) (lo hi : R) (n : nat),
    (1 <= n)%nat ->
    (forall i : nat, lo <= f i <= hi) ->
    lo <= Spec.sum_n f n / INR n <= hi.
Proof.
  intros f lo hi n Hn Hf.
  assert (Hpos : 0 < INR n) by (apply lt_0_INR; lia).
  destruct (sum_n_bounds f lo hi n Hf) as [Hlo Hhi].
  split.
  - apply Rmult_le_reg_r with (INR n); [ exact Hpos | ].
    unfold Rdiv. rewrite Rmult_assoc, Rinv_l by lra. lra.
  - apply Rmult_le_reg_r with (INR n); [ exact Hpos | ].
    unfold Rdiv. rewrite Rmult_assoc, Rinv_l by lra. lra.
Qed.

(** The model renders [std::log] and [std::sqrt] by total functions; it
    follows the code where every sample drawn is positive (so that
    [ln u1] is finite) and the time step is not negative.  The properties
    of the simulated prices are stated under these conditions. *)

Lemma odd_word_positive :
  forall m : nat, (1 <= (2 * Z.of_nat m + 1) mod engine_modulus)%Z.
Proof.
  intro m.
  assert (Hrange := Z.mod_pos_bound (2 * Z.of_nat m + 1) engine_modulus eq_refl).
  assert (Hdiv := Z.div_mod (2 * Z.of_nat m + 1) engine_modulus).
  unfold engine_modulus in *.
  change (2 ^ 64)%Z with 18446744073709551616%Z in *.
  lia.
Qed.

Lemma value_at_odd_engine :
  forall m : nat, 0 < value_at (RandomGenerator.new odd_engine 0.0 1.0) m < 1.
Proof.
  intro m. split; [ | apply value_at_unit_range ].
  unfold value_at, RandomGenerator.new.
  cbn [RandomGenerator.distribution_a RandomGenerator.distribution_b
       RandomGenerator.gen distribution RandomType_double odd_engine words].
  rewrite std_min_Rmin, std_max_Rmax, Rmin_left, Rmax_right by lra.
  unfold uniform_real_distribution, generate_canonical.
  assert (Hk := IZR_le _ _ (odd_word_positive m)).
  assert (Hm : 0 < IZR engine_modulus) by (apply IZR_lt; reflexivity).
  assert (Hq : 0 < IZR ((2 * Z.of_nat m + 1) mod engine_modulus) / IZR engine_modulus).
  { apply Rdiv_lt_0_compat; lra. }
  lra.
Qed.

Lemma samples_odd_engine :
  forall (params : MonteCarloParams.t) (u : R),
    In u (Trace.samples odd_engine params) -> 0 < u.
Proof.
  intros params u Hu.
  destruct (samples_value_at odd_engine params u Hu) as [m ->].
  apply value_at_odd_engine.
Qed.

(** X18: along a path the price keeps its sign: from a positive price, with
    a time step that is not negative and samples that all lie strictly
    between 0 and 1, every number of days leads to a positive price. *)
Theorem day_loop_positive :
  forall (params : MonteCarloParams.t) (days : nat) (time_step : R)
         (price : Price) (g : RandomGenerator.t R),
    0 < price ->
    0 <= time_step ->
    (forall u : R,
        In u (snd (Trace.day_loop params days time_step price g)) -> 0 < u < 1) ->
    0 < fst (day_loop params days time_step price g).
Proof.
  intros params days time_step price g Hprice _ _.
  rewrite day_loop_eq. cbn [fst].
  apply Rmult_lt_0_compat; [ exact Hprice | ].
  apply prod_n_pos. intro i. apply growth_at_pos.
Qed.

Lemma day_loop_positive_witness :
  0 < fst (day_loop mtc_params 182 (0.5 / 182) 100
             (RandomGenerator.new odd_engine 0.0 1.0)).
Proof.
  apply (day_loop_positive mtc_params 182 (0.5 / 182) 100).
  - lra.
  - lra.
  - intros u Hu.
    destruct (Trace_day_loop_samples _ _ _ _ _ _ Hu) as [m ->].
    apply value_at_odd_engine.
Defined.

(** X19: with at least one simulation, a time to expiry that is not
    negative and samples that are all positive, the Monte Carlo price is
    never negative, for every option type. *)
Theorem calculateMonteCarlo_nonnegative :
  forall (rd : mt19937_64) (params : MonteCarloParams.t),
    (1 <= MonteCarloParams.number_of_simulations params)%N ->
    0 <= MonteCarloParams.time params ->
    (forall u : R, In u (Trace.samples rd params) -> 0 < u) ->
    0 <= calculateMonteCarlo rd params.
Proof.
  intros rd params Hn _ _. rewrite calculateMonteCarlo_mean.
  apply Rmult_le_pos; [ | left; apply exp_pos ].
  apply Rmult_le_pos.
  - apply sum_n_nonneg. intro i. apply path_payoff_nonneg.
  - left. apply Rinv_0_lt_compat. apply lt_0_INR. lia.
Qed.

Lemma calculateMonteCarlo_nonnegative_witness :
  0 <= calculateMonteCarlo odd_engine mtc_params.
Proof.
  apply (calculateMonteCarlo_nonnegative odd_engine mtc_params).
  - cbn [mtc_params MonteCarloParams.number_of_simulations]. lia.
  - cbn [mtc_params MonteCarloParams.time]. lra.
  - apply samples_odd_engine.
Defined.

(** X20: for a Put on a non-negative underlying price with a non-negative
    strike, at least one simulation, a time to expiry that is not negative
    and samples that are all positive, the Monte Carlo price is at most the
    discounted strike [K e^(-rT)]. *)
Theorem calculateMonteCarlo_Put_bound :
  forall (rd : mt19937_64) (params : MonteCarloParams.t),
    MonteCarloParams.option_type params = Put ->
    (1 <= MonteCarloParams.number_of_simulations params)%N ->
    0 <= MonteCarloParams.underlying_price params ->
    0 <= MonteCarloParams.strike_price params ->
    0 <= MonteCarloParams.time params ->
    (forall u : R, In u (Trace.samples rd params) -> 0 < u) ->
    calculateMonteCarlo rd params
    <= MonteCarloParams.strike_price params
       * exp (- (MonteCarloParams.interest_rate params * MonteCarloParams.time params)).
Proof.
  intros rd params Hty Hn Hs Hk _ _. rewrite calculateMonteCarlo_mean.
  apply Rmult_le_compat_r; [ left; apply exp_pos | ].
  apply (mean_bounds _ 0 (MonteCarloParams.strike_price params)); [ lia | ].
  intro i. split; [ apply path_payoff_nonneg | ].
  unfold path_payoff. rewrite Hty. cbn [OptionType_eqb].
  rewrite std_max_Rmax.
  assert (Hprod : 0 < Spec.prod_n
                        (fun day =>
                           growth_at params (Spec.time_step params)
                             (RandomGenerator.new rd 0.0 1.0)
                             (delivered rd + 2 * (i * Spec.total_days params + day)))
                        (Spec.total_days params)).
  { apply prod_n_pos. intro day. apply growth_at_pos. }
  assert (Hterm := Rmult_le_pos _ _ Hs (Rlt_le _ _ Hprod)).
  unfold Price in *. apply Rmax_lub; lra.
Qed.

Lemma calculateMonteCarlo_Put_bound_witness :
  calculateMonteCarlo odd_engine
    (MonteCarloParams.make 1000000 0.2 100.0 105.0 0.5 0.3 Put 5.0)
  <= 105.0 * exp (- (0.2 * 0.5)).
Proof.
  apply (calculateMonteCarlo_Put_bound odd_engine
           (MonteCarloParams.make 1000000 0.2 100.0 105.0 0.5 0.3 Put 5.0)).
  - reflexivity.
  - cbn [MonteCarloParams.number_of_simulations]. lia.
  - cbn [MonteCarloParams.underlying_price]. lra.
  - cbn [MonteCarloParams.strike_price]. lra.
  - cbn [MonteCarloParams.time]. lra.
  - apply samples_odd_engine.
Defined.

Lemma sum_n_const :
  forall (c : R) (n : nat), Spec.sum_n (fun _ => c) n = INR n * c.
Proof.
  intros c n. induction n as [| n IH].
  - simpl. ring.
  - change (Spec.sum_n (fun _ => c) (S n)) with (Spec.sum_n (fun _ => c) n + c).
    rewrite IH, S_INR. ring.
Qed.

Lemma prod_n_const :
  forall (c : R) (n : nat), Spec.prod_n (fun _ => c) n = c ^ n.
Proof.
  intros c n. induction n as [| n IH].
  - reflexivity.
  - change (Spec.prod_n (fun _ => c) (S n)) with (Spec.prod_n (fun _ => c) n * c).
    rewrite IH. simpl. ring.
Qed.

Lemma exp_pow_INR : forall (x : R) (n : nat), exp x ^ n = exp (INR n * x).
Proof.
  intros x n. induction n as [| n IH].
  - simpl. rewrite Rmult_0_l, exp_0. reflexivity.
  - rewrite S_INR, Rmult_plus_distr_r, Rmult_1_l, exp_plus, <- IH.
    simpl. ring.
Qed.

Lemma mean_const :
  forall (c : R) (n : nat), (1 <= n)%nat -> Spec.sum_n (fun _ => c) n / INR n = c.
Proof.
  intros c n Hn. rewrite sum_n_const. field.
  apply not_0_INR. lia.
Qed.

Lemma total_days_positive :
  forall params : MonteCarloParams.t,
    1 <= MonteCarloParams.time params * 365 -> (1 <= Spec.total_days params)%nat.
Proof.
  intros params Ht. unfold Spec.total_days.
  assert (H := Int_part_positive _ Ht). lia.
Qed.

Lemma growth_at_no_volatility :
  forall (params : MonteCarloParams.t) (time_step : R) (g : RandomGenerator.t R)
         (m : nat),
    MonteCarloParams.volatility params = 0 ->
    growth_at params time_step g m
    = exp (MonteCarloParams.interest_rate params * time_step).
Proof.
  intros params time_step g m Hsigma. unfold growth_at. rewrite Hsigma.
  f_equal. unfold Volatility, InterestRate in *. simpl. lra.
Qed.

(** X21: without volatility the result does not depend on which positive
    samples are drawn.  With at least one simulated day and one simulation,
    and samples that are all positive, every path ends at [S e^(rT)], and
    the price is [max(S e^(rT) - K, 0) e^(-rT)] for a Call and
    [max(K - S e^(rT), 0) e^(-rT)] for a Put. *)
Theorem calculateMonteCarlo_no_volatility :
  forall (rd : mt19937_64) (params : MonteCarloParams.t),
    MonteCarloParams.volatility params = 0 ->
    1 <= MonteCarloParams.time params * 365 ->
    (1 <= MonteCarloParams.number_of_simulations params)%N ->
    (forall u : R, In u (Trace.samples rd params) -> 0 < u) ->
    let forward :=
      MonteCarloParams.underlying_price params
      * exp (MonteCarloParams.interest_rate params * MonteCarloParams.time params) in
    let discount_factor :=
      exp (- (MonteCarloParams.interest_rate params * MonteCarloParams.time params)) in
    (MonteCarloParams.option_type params = Call ->
     calculateMonteCarlo rd params
     = Rmax (forward - MonteCarloParams.strike_price params) 0 * discount_factor)
    /\ (MonteCarloParams.option_type params = Put ->
        calculateMonteCarlo rd params
        = Rmax (MonteCarloParams.strike_price params - forward) 0 * discount_factor).
Proof.
  intros rd params Hsigma Ht Hn _ forward discount_factor.
  assert (Hdays := total_days_positive params Ht).
  assert (Hresult : calculateMonteCarlo rd params
                    = path_payoff params forward * discount_factor).
  { rewrite calculateMonteCarlo_mean. fold discount_factor. f_equal.
    rewrite <- (mean_const (path_payoff params forward)
                  (N.to_nat (MonteCarloParams.number_of_simulations params)))
      by lia.
    f_equal. apply sum_n_ext. intros i _. f_equal. unfold forward. f_equal.
    rewrite (prod_n_ext _
               (fun _ => exp (MonteCarloParams.interest_rate params
                              * Spec.time_step params)))
      by (intros; apply growth_at_no_volatility; exact Hsigma).
    rewrite prod_n_const, exp_pow_INR. f_equal.
    unfold Spec.time_step. unfold InterestRate, Time in *. field.
    apply not_0_INR. lia. }
  split; intro Hty; rewrite Hresult; unfold path_payoff; rewrite Hty;
    cbn [OptionType_eqb]; rewrite std_max_Rmax; replace 0.0 with 0 by lra;
    reflexivity.
Qed.

Lemma calculateMonteCarlo_no_volatility_witness :
  calculateMonteCarlo odd_engine
    (MonteCarloParams.make 1000000 0.2 100.0 105.0 0.5 0 Call 5.0)
  = Rmax (100.0 * exp (0.2 * 0.5) - 105.0) 0 * exp (- (0.2 * 0.5)).
Proof.
  apply (calculateMonteCarlo_no_volatility odd_engine
           (MonteCarloParams.make 1000000 0.2 100.0 105.0 0.5 0 Call 5.0)).
  - reflexivity.
  - cbn [MonteCarloParams.time]. lra.
  - cbn [MonteCarloParams.number_of_simulations]. lia.
  - apply samples_odd_engine.
  - reflexivity.
Defined.

(** ** The words that an evaluation consumes *)

Lemma advance_0 :
  forall (T : Type) (g : RandomGenerator.t T), advance 0 g = g.
Proof.
  intros T [[w d] a b]. unfold advance. simpl. rewrite Nat.add_0_r. reflexivity.
Qed.

Lemma values_app :
  forall (T : Type) (RT : RandomType T) (n m : nat) (g : RandomGenerator.t T),
    RandomGenerator.values (n + m) g
    = RandomGenerator.values n g ++ RandomGenerator.values m (advance n g).
Proof.
  intros T RT n. induction n as [| n IH]; intros m g.
  - simpl. rewrite advance_0. reflexivity.
  - cbn [RandomGenerator.values Nat.add]. rewrite getRandomValue_eq.
    rewrite IH, advance_advance. reflexivity.
Qed.

Lemma values_length :
  forall (T : Type) (RT : RandomType T) (n : nat) (g : RandomGenerator.t T),
    List.length (RandomGenerator.values n g) = n.
Proof.
  intros T RT n. induction n as [| n IH]; intro g.
  - reflexivity.
  - cbn [RandomGenerator.values]. rewrite getRandomValue_eq.
    simpl. rewrite IH. reflexivity.
Qed.

Lemma Trace_day_loop_values :
  forall (params : MonteCarloParams.t) (days : nat) (time_step : R)
         (price : Price) (g : RandomGenerator.t R),
    snd (Trace.day_loop params days time_step price g)
    = RandomGenerator.values (2 * days) g.
Proof.
  intros params days time_step. induction days as [| days IH]; intros price g.
  - reflexivity.
  - cbn [Trace.day_loop].
    assert (Hstep := Trace_day_step_samples params time_step price g).
    assert (Hgen := Trace_day_step_erase params time_step price g).
    rewrite day_step_eq in Hgen.
    destruct (Trace.day_step params time_step price g) as [[price' g'] us].
    cbn [fst snd] in Hstep, Hgen. injection Hgen as _ Hg'.
    specialize (IH price' g').
    destruct (Trace.day_loop params days time_step price' g') as [[price'' g''] us'].
    cbn [snd] in IH |- *. rewrite Hstep, IH, Hg'.
    replace (2 * S days)%nat with (2 + 2 * days)%nat by lia.
    rewrite values_app. f_equal.
    cbn [RandomGenerator.values]. rewrite !getRandomValue_eq, value_at_advance.
    cbn [advance RandomGenerator.gen delivered]. reflexivity.
Qed.

Lemma Trace_simulation_loop_values :
  forall (params : MonteCarloParams.t) (simulations total_days : nat)
         (time_step : R) (total_payoff : Price) (g : RandomGenerator.t R),
    snd (Trace.simulation_loop params simulations total_days time_step
           total_payoff g)
    = RandomGenerator.values (2 * total_days * simulations) g.
Proof.
  intros params simulations total_days time_step.
  induction simulations as [| simulations IH]; intros total_payoff g.
  - rewrite Nat.mul_0_r. reflexivity.
  - cbn [Trace.simulation_loop].
    assert (Hdays := Trace_day_loop_values params total_days time_step
                       (MonteCarloParams.underlying_price params) g).
    assert (Hgen := Trace_day_loop_erase params total_days time_step
                      (MonteCarloParams.underlying_price params) g).
    rewrite day_loop_eq in Hgen.
    destruct (Trace.day_loop params total_days time_step
                (MonteCarloParams.underlying_price params) g) as [[price g'] us].
    cbn [fst snd] in Hdays, Hgen. injection Hgen as _ Hg'.
    specialize (IH (total_payoff + path_payoff params price) g').
    destruct (Trace.simulation_loop params simulations total_days time_step
                (total_payoff + path_payoff params price) g') as [[total g''] us'].
    cbn [snd] in IH |- *. rewrite Hdays, IH, Hg'.
    replace (2 * total_days * S simulations)%nat
      with (2 * total_days + 2 * total_days * simulations)%nat by lia.
    rewrite values_app. reflexivity.
Qed.

(** X22: an evaluation draws exactly two samples per simulated day and
    path, in order and without skipping: its samples are the first
    [2 * total_days * number_of_simulations] values of the source it
    constructs. *)
Theorem samples_are_first_values :
  forall (rd : mt19937_64) (params : MonteCarloParams.t),
    let total_days :=
      N.to_nat (size_t_of_double (MonteCarloParams.time params * 365.0)) in
    let simulations := N.to_nat (MonteCarloParams.number_of_simulations params) in
    Trace.samples rd params
    = RandomGenerator.values (2 * total_days * simulations)
        (RandomGenerator.new rd 0.0 1.0)
    /\ List.length (Trace.samples rd params) = (2 * total_days * simulations)%nat.
Proof.
  intros rd params total_days simulations.
  assert (H : Trace.samples rd params
              = RandomGenerator.values (2 * total_days * simulations)
                  (RandomGenerator.new rd 0.0 1.0)).
  { unfold Trace.samples, Trace.calculateMonteCarlo.
    fold total_days. fold simulations.
    rewrite <- Trace_simulation_loop_values
      with (params := params)
           (time_step := MonteCarloParams.time params
                         / double_of_size_t
                             (size_t_of_double
                                (MonteCarloParams.time params * 365.0)))
           (total_payoff := 0.0).
    destruct (Trace.simulation_loop _ _ _ _ _ _) as [[total g] us].
    reflexivity. }
  split; [ exact H | ].
  rewrite H. apply values_length.
Qed.

(** ** Uniform random source: equal bounds *)

(** X23: a source constructed with two equal bounds produces that bound and
    nothing else, for [double] and for integers. *)
Theorem RandomGenerator_equal_bounds :
  (forall (rd : mt19937_64) (a : R) (n : nat) (x : R),
      In x (RandomGenerator.values n (RandomGenerator.new rd a a)) -> x = a)
  /\ (forall (rd : mt19937_64) (a : Z) (n : nat) (x : Z),
         In x (RandomGenerator.values n (RandomGenerator.new rd a a)) -> x = a).
Proof.
  split.
  - intros rd a n x Hx.
    destruct (values_In _ _ _ _ _ Hx) as [m ->].
    destruct (value_at_double_range rd a a m) as [[Hlo Hhi] _].
    rewrite Rmin_left in Hlo by lra. rewrite Rmax_left in Hhi by lra. lra.
  - intros rd a n x Hx.
    destruct (values_In _ _ _ _ _ Hx) as [m ->].
    assert (H := value_at_integer_range rd a a m). lia.
Qed.

Lemma RandomGenerator_equal_bounds_witness :
  uniform_int_distribution 7 7 (0 mod engine_modulus) = 7%Z.
Proof.
  apply (proj2 RandomGenerator_equal_bounds counting_engine 7%Z 1%nat).
  cbn [RandomGenerator.values]. rewrite getRandomValue_eq.
  left. unfold value_at, RandomGenerator.new, std_min, std_max.
  reflexivity.
Defined.

(** ** Option types that are not enumerators *)

(** X24: the four consumers of an option type treat a value that is
    neither Call nor Put differently: the Black-Scholes evaluator throws
    [std::invalid_argument], the Greeks evaluator and the payoff primitive
    proceed as for a Put, and the Monte Carlo evaluator, given at least one
    simulation, returns 0. *)
Theorem option_type_out_of_range :
  forall (rd : mt19937_64) (n : N) (r s k t sigma paid q premium spot : R)
         (greek : Greeks),
    (exists what : string,
        calculateBlackScholes
          (BlackScholesParams.make r s k t sigma OptionType_out_of_range paid)
        = invalid_argument what)
    /\ calculateGreeks
         (GreeksParams.make r s k t sigma OptionType_out_of_range paid q) greek
       = calculateGreeks (GreeksParams.make r s k t sigma Put paid q) greek
    /\ Option.calculatePayoff (Option.make k premium OptionType_out_of_range) spot
       = Option.calculatePayoff (Option.make k premium Put) spot
    /\ ((1 <= n)%N ->
        calculateMonteCarlo rd
          (MonteCarloParams.make n r s k t sigma OptionType_out_of_range paid)
        = 0).
Proof.
  intros rd n r s k t sigma paid q premium spot greek.
  split; [ eexists; reflexivity | ].
  split; [ reflexivity | ].
  split; [ reflexivity | ].
  intro Hn. rewrite calculateMonteCarlo_mean.
  rewrite (sum_n_ext _ (fun _ => 0)).
  - rewrite mean_const by (cbn [MonteCarloParams.number_of_simulations]; lia).
    apply Rmult_0_l.
  - intros i _. unfold path_payoff.
    cbn [MonteCarloParams.option_type OptionType_eqb]. lra.
Qed.

Lemma option_type_out_of_range_witness :
  calculateMonteCarlo counting_engine
    (MonteCarloParams.make 1000000 0.2 100.0 105.0 0.5 0.3 OptionType_out_of_range 5.0)
  = 0.
Proof.
  apply (proj2 (proj2 (proj2
           (option_type_out_of_range counting_engine 1000000
              0.2 100.0 105.0 0.5 0.3 5.0 0 0 0 Delta)))).
  lia.
Defined.

(** ** Payoff primitive: floor and parity *)

(** X25: an option never loses more than its premium, whatever its type,
    and at one strike the Call payoff exceeds the Put payoff by the spot
    less the strike less the difference of the premiums. *)
Theorem calculatePayoff_floor_and_parity :
  forall (option : Option.t) (strike call_premium put_premium spot : Price),
    - Option.getPremium option <= Option.calculatePayoff option spot
    /\ Option.calculatePayoff (Option.make strike call_premium Call) spot
       - Option.calculatePayoff (Option.make strike put_premium Put) spot
       = (spot - strike) - (call_premium - put_premium).
Proof.
  intros [K p ty] strike call_premium put_premium spot. split.
  - unfold Option.calculatePayoff, Option.getPremium.
    cbn [Option.option_type_ Option.strike_ Option.premium_].
    destruct (OptionType_eqb ty Call); rewrite std_max_Rmax;
      replace 0.0 with 0 by lra; rmax_cases.
  - rewrite calculatePayoff_Call, calculatePayoff_Put. rmax_cases.
Qed.

(** ** Monte Carlo evaluator: homogeneity *)

Lemma sum_n_scale :
  forall (lambda : R) (f : nat -> R) (n : nat),
    Spec.sum_n (fun i => lambda * f i) n = lambda * Spec.sum_n f n.
Proof.
  intros lambda f n. induction n as [| n IH].
  - simpl. ring.
  - change (Spec.sum_n (fun i => lambda * f i) (S n))
      with (Spec.sum_n (fun i => lambda * f i) n + lambda * f n).
    rewrite IH. simpl. ring.
Qed.

Lemma Rmax_scale :
  forall lambda x : R, 0 < lambda -> Rmax (lambda * x) 0 = lambda * Rmax x 0.
Proof.
  intros lambda x Hl. unfold Rmax.
  destruct (Rle_dec (lambda * x) 0); destruct (Rle_dec x 0); nra.
Qed.

(** X26: like the Black-Scholes price the Monte Carlo price is homogeneous
    of degree one: for the same engine, multiplying the underlying and the
    strike price by a positive factor multiplies the price by that factor. *)
Theorem calculateMonteCarlo_homogeneous :
  forall (rd : mt19937_64) (lambda : R) (n : N) (r s k t sigma paid : R)
         (option_type : OptionType),
    0 < lambda ->
    calculateMonteCarlo rd
      (MonteCarloParams.make n r (lambda * s) (lambda * k) t sigma option_type paid)
    = lambda
      * calculateMonteCarlo rd
          (MonteCarloParams.make n r s k t sigma option_type paid).
Proof.
  intros rd lambda n r s k t sigma paid option_type Hl.
  rewrite !calculateMonteCarlo_mean.
  cbn [MonteCarloParams.number_of_simulations MonteCarloParams.interest_rate
       MonteCarloParams.time MonteCarloParams.underlying_price].
  unfold Rdiv. rewrite <- !Rmult_assoc. f_equal. f_equal.
  rewrite <- sum_n_scale. apply sum_n_ext. intros i _.
  unfold path_payoff.
  cbn [MonteCarloParams.option_type MonteCarloParams.strike_price].
  change (Spec.total_days
            (MonteCarloParams.make n r (lambda * s) (lambda * k) t sigma
               option_type paid))
    with (Spec.total_days (MonteCarloParams.make n r s k t sigma option_type paid)).
  set (days := Spec.total_days (MonteCarloParams.make n r s k t sigma option_type paid)).
  set (growth := Spec.prod_n _ days).
  destruct option_type; cbn [OptionType_eqb]; rewrite ?std_max_Rmax;
    replace 0.0 with 0 by lra.
  - rewrite <- Rmax_scale by exact Hl. f_equal. unfold Price in *. ring.
  - rewrite <- Rmax_scale by exact Hl. f_equal. unfold Price in *. ring.
  - ring.
Qed.

Lemma calculateMonteCarlo_homogeneous_witness :
  calculateMonteCarlo counting_engine
    (MonteCarloParams.make 1000000 0.2 (2 * 100.0) (2 * 105.0) 0.5 0.3 Call 5.0)
  = 2 * calculateMonteCarlo counting_engine mtc_params.
Proof.
  apply (calculateMonteCarlo_homogeneous counting_engine 2 1000000
           0.2 100.0 105.0 0.5 0.3 5.0 Call).
  lra.
Defined.
